(** * Bug Gang scheduler: task store, gesture interpreter and SQLite adapter

    A shallow embedding of
      - [app/(tabs)/tasks.tsx] and [app/(tabs)/tasks-simple.tsx]
        (the two screens share the task logic line for line), and
      - [services/SQLiteService.ts],
    followed by the properties stated about them. *)

From Stdlib Require Import ZArith QArith Qabs Lia String Ascii.
From stdpp Require Import base decidable countable list sorting gmap.

Close Scope Q_scope.
Local Open Scope Z_scope.

(* ===================================================================== *)
(** * JavaScript values used by the screens *)
(* ===================================================================== *)

Module Js.

(** A JavaScript string is a sequence of UTF-16 code units. *)
Abbreviation str := (list N).

(** The code units removed by [String.prototype.trim]: ECMAScript
    WhiteSpace (TAB, VT, FF, SP, NBSP, ZWNBSP and category Zs) together
    with LineTerminator (LF, CR, LS, PS). *)
Definition isWhiteSpace (c : N) : bool :=
  match c with
  | 9 | 10 | 11 | 12 | 13 | 32 | 160 | 5760
  | 8232 | 8233 | 8239 | 8287 | 12288 | 65279 => true
  | _ => (8192 <=? c) && (c <=? 8202)
  end%N.

Fixpoint trimStart (s : str) : str :=
  match s with
  | [] => []
  | c :: rest => if isWhiteSpace c then trimStart rest else s
  end.

Definition trimEnd (s : str) : str := rev (trimStart (rev s)).

Definition trim (s : str) : str := trimEnd (trimStart s).

(** ToBoolean on a string: only the empty string is falsy. *)
Definition truthy (s : str) : bool :=
  match s with [] => false | _ :: _ => true end.

(** A string literal of the source, all of whose characters are ASCII. *)
Definition lit (s : string) : str := map N_of_ascii (list_ascii_of_string s).

(** [xs.indexOf(x)]: the first index holding [x], or -1. *)
Fixpoint indexOfFrom {A} `{EqDecision A} (i : Z) (xs : list A) (x : A) : Z :=
  match xs with
  | [] => -1
  | y :: rest => if decide (y = x) then i else indexOfFrom (i + 1) rest x
  end.

Definition indexOf {A} `{EqDecision A} (xs : list A) (x : A) : Z :=
  indexOfFrom 0 xs x.

(** [xs[i]] for an integer [i]: [undefined] (here [None]) out of range. *)
Definition at_index {A} (xs : list A) (i : Z) : option A :=
  if i <? 0 then None else xs !! Z.to_nat i.

(** Strict comparison of two finite numbers. *)
Definition Qltb (x y : Q) : bool := negb (Qle_bool y x).

End Js.

(* ===================================================================== *)
(** * The task record ([interface Task], the same in all three files) *)
(* ===================================================================== *)

Inductive TaskStatus : Set := ToDo | InProgress | Completed.

#[global] Instance TaskStatus_eq_dec : EqDecision TaskStatus.
Proof. solve_decision. Defined.

#[global] Instance TaskStatus_countable : Countable TaskStatus.
Proof.
  refine (inj_countable'
            (λ s, match s with ToDo => 0%nat | InProgress => 1%nat | Completed => 2%nat end)
            (λ n, match n with 0%nat => ToDo | 1%nat => InProgress | _ => Completed end) _).
  by intros [].
Defined.

Record Task : Type := mkTask { id : Z; title : Js.str; status : TaskStatus }.

#[global] Instance Task_eq_dec : EqDecision Task.
Proof. solve_decision. Defined.

(** [{ ...task, status: newStatus }] *)
Definition withStatus (task : Task) (newStatus : TaskStatus) : Task :=
  {| id := id task; title := title task; status := newStatus |}.

(* ===================================================================== *)
(** * The task screen (tasks.tsx / tasks-simple.tsx) *)
(* ===================================================================== *)

Module TasksScreen.

Definition COLUMNS : list TaskStatus := [ToDo; InProgress; Completed].

Definition initialTasks : list Task :=
  [ {| id := 1; title := Js.lit "Plan weekly meal prep"; status := ToDo |};
    {| id := 2; title := Js.lit "Debug ant trail AI"; status := InProgress |};
    {| id := 3; title := Js.lit "Send out team retrospective summary"; status := Completed |};
    {| id := 4; title := Js.lit "Buy more honey dew drops"; status := ToDo |} ].

(** The [useState] cells the handlers below read and write
    ([viewMode] only selects the layout and is left out). *)
Record Screen : Type := mkScreen {
  tasks : list Task;
  newTaskTitle : Js.str;
  draggedTask : option Task
}.

Definition initialScreen : Screen :=
  {| tasks := initialTasks; newTaskTitle := []; draggedTask := None |}.

Definition setTasks (ts : list Task) (st : Screen) : Screen :=
  {| tasks := ts; newTaskTitle := newTaskTitle st; draggedTask := draggedTask st |}.

Definition setNewTaskTitle (text : Js.str) (st : Screen) : Screen :=
  {| tasks := tasks st; newTaskTitle := text; draggedTask := draggedTask st |}.

Definition setDraggedTask (t : option Task) (st : Screen) : Screen :=
  {| tasks := tasks st; newTaskTitle := newTaskTitle st; draggedTask := t |}.

(** [addTask]; [now] is the value read from [Date.now()]. *)
Definition addTask (now : Z) (st : Screen) : Screen :=
  if Js.truthy (Js.trim (newTaskTitle st)) then
    let newTask :=
      {| id := now; title := Js.trim (newTaskTitle st); status := ToDo |} in
    setNewTaskTitle [] (setTasks (tasks st ++ [newTask]) st)
  else st.

Definition moveTaskToCompleted (taskId : Z) (st : Screen) : Screen :=
  setTasks
    ((λ task, if decide (id task = taskId) then withStatus task Completed else task)
       <$> tasks st) st.

Definition moveTask (taskId : Z) (newStatus : TaskStatus) (st : Screen) : Screen :=
  setTasks
    ((λ task, if decide (id task = taskId) then withStatus task newStatus else task)
       <$> tasks st) st.

(** [groupedTasks]: the object built by [COLUMNS.reduce], one key per
    column, each holding [tasks.filter(task => task.status === status)]. *)
Definition groupedTasks (ts : list Task) : gmap TaskStatus (list Task) :=
  foldl (λ acc column, <[column := filter (λ task, status task = column) ts]> acc)
        ∅ COLUMNS.

(** The index computed inside [onPanResponderRelease] once the
    displacement has passed the outer test. *)
Definition newIndex (currentIndex : Z) (dx : Q) : Z :=
  if Js.Qltb 50%Q dx && (currentIndex <? Z.of_nat (length COLUMNS) - 1) then
    currentIndex + 1
  else if Js.Qltb dx (-50)%Q && (0 <? currentIndex) then
    currentIndex - 1
  else currentIndex.

(** The call [moveTask(task.id, COLUMNS[newIndex])] a release performs,
    if any; the second component is the result of the array lookup. *)
Definition releaseCommand (task : Task) (dx : Q) : option (Z * option TaskStatus) :=
  if Js.Qltb 50%Q (Qabs dx) then
    let currentIndex := Js.indexOf COLUMNS (status task) in
    let newIdx := newIndex currentIndex dx in
    if decide (newIdx ≠ currentIndex)
    then Some (id task, Js.at_index COLUMNS newIdx)
    else None
  else None.

(** [onPanResponderRelease] on the card of [task] with
    [gestureState.dx = dx].  [None] stands for the one run the [Task]
    record cannot hold: a status read from outside [COLUMNS]. *)
Definition onPanResponderRelease (task : Task) (dx : Q) (st : Screen)
  : option Screen :=
  match releaseCommand task dx with
  | None => Some (setDraggedTask None st)
  | Some (taskId, Some newStatus) =>
      Some (setDraggedTask None (moveTask taskId newStatus st))
  | Some (_, None) => None
  end.

(** What can happen to the screen: the user types, presses the add
    button, presses a checkmark, or drops a card; [SetStatus] is a direct
    call of [moveTask]. *)
Inductive Action : Type :=
| TypeTitle (text : Js.str)
| PressAdd (now : Z)
| PressComplete (taskId : Z)
| Drop (task : Task) (dx : Q)
| SetStatus (taskId : Z) (newStatus : TaskStatus).

Definition step (st : Screen) (a : Action) : Screen :=
  match a with
  | TypeTitle text => setNewTaskTitle text st
  | PressAdd now => addTask now st
  | PressComplete taskId => moveTaskToCompleted taskId st
  | Drop task dx => default st (onPanResponderRelease task dx st)
  | SetStatus taskId newStatus => moveTask taskId newStatus st
  end.

Definition run (acts : list Action) (st : Screen) : Screen := foldl step st acts.

End TasksScreen.

(* ===================================================================== *)
(** * The embedded database as the service sees it (expo-sqlite) *)
(* ===================================================================== *)

Module SQLite.

(** What a [catch] clause of the service can receive. *)
Inductive Error : Set :=
| DatabaseNotInitialized   (* new Error('Database not initialized') *)
| EngineError              (* anything thrown by an expo-sqlite call *)
| FailedToInitialize.      (* new Error(`Failed to initialize database: ...`) *)

(** The value of [SQLite.openDatabaseAsync(DATABASE_NAME)]. *)
Inductive SQLiteDatabase : Set := Connection.

(** The [tasks] table of BugGangDB.db: its rows, and the largest id ever
    handed out (what AUTOINCREMENT keeps in [sqlite_sequence]). *)
Record Table : Type := mkTable { rows : list Task; seq : N }.

(** The world an [async] method of the service runs in: the service's
    own field [this.database], the table on disk, and the fault
    schedule of the engine: the n-th engine call from now throws
    exactly when the n-th entry is [true] (none left: no fault). *)
Record World : Type := mkWorld {
  database : option SQLiteDatabase;
  table : Table;
  faults : list bool
}.

Inductive Outcome (A : Type) : Type :=
| Returned (a : A)
| Thrown (e : Error).
Arguments Returned {A} a.
Arguments Thrown {A} e.

(** An awaited computation: it ends by returning or throwing, and the
    effects it had up to that point stay. *)
Definition M (A : Type) : Type := World → Outcome A * World.

Definition ret {A} (a : A) : M A := λ w, (Returned a, w).

Definition bind {A B} (c : M A) (k : A → M B) : M B :=
  λ w, match c w with
       | (Returned a, w') => k a w'
       | (Thrown e, w') => (Thrown e, w')
       end.

Definition throw {A} (e : Error) : M A := λ w, (Thrown e, w).

(** [try { c } catch (error) { handler }] *)
Definition try_catch {A} (c : M A) (handler : Error → M A) : M A :=
  λ w, match c w with
       | (Returned a, w') => (Returned a, w')
       | (Thrown e, w') => handler e w'
       end.

Definition this_database : M (option SQLiteDatabase) :=
  λ w, (Returned (database w), w).

Definition set_this_database (db : option SQLiteDatabase) : M unit :=
  λ w, (Returned (), {| database := db; table := table w; faults := faults w |}).

(** One call into the engine: it throws if the schedule says so, and
    otherwise acts on the table. *)
Definition engine {A} (f : Table → A * Table) : M A :=
  λ w, match faults w with
       | true :: later =>
           (Thrown EngineError,
            {| database := database w; table := table w; faults := later |})
       | _ =>
           let '(a, t') := f (table w) in
           (Returned a,
            {| database := database w; table := t'; faults := tail (faults w) |})
       end.

(** Whether the next engine call throws. *)
Definition nextFault (w : World) : bool :=
  match faults w with
  | true :: _ => true
  | _ => false
  end.

Definition openDatabaseAsync : M SQLiteDatabase :=
  engine (λ t, (Connection, t)).

(** [execAsync(CREATE_TASKS_TABLE)]: CREATE TABLE IF NOT EXISTS keeps
    the rows that are there. *)
Definition execAsync_create (db : SQLiteDatabase) : M unit :=
  engine (λ t, ((), t)).

(** [getFirstAsync(SELECT_TASK_COUNT)], its [count] column. *)
Definition getFirstAsync_count (db : SQLiteDatabase) : M Z :=
  engine (λ t, (Z.of_nat (length (rows t)), t)).

(** INSERT INTO tasks (title, status) VALUES (?, ?): the row gets the
    next id of the AUTOINCREMENT sequence; the result is that id and the
    table afterwards. *)
Definition insertRow (newTitle : Js.str) (newStatus : TaskStatus) (t : Table)
  : Z * Table :=
  let rowid := Z.of_N (N.succ (seq t)) in
  (rowid,
   {| rows := rows t ++ [ {| id := rowid; title := newTitle; status := newStatus |} ];
      seq := N.succ (seq t) |}).

(** [runAsync(INSERT_TASK, [title, status])], its [lastInsertRowId]. *)
Definition runAsync_insert (db : SQLiteDatabase)
    (newTitle : Js.str) (newStatus : TaskStatus) : M Z :=
  engine (insertRow newTitle newStatus).

(** [runAsync(UPDATE_TASK_STATUS, [status, taskId])], its [changes]. *)
Definition runAsync_update (db : SQLiteDatabase)
    (newStatus : TaskStatus) (taskId : Z) : M Z :=
  engine (λ t,
    (Z.of_nat (length (filter (λ r, id r = taskId) (rows t))),
     {| rows := (λ r, if decide (id r = taskId) then withStatus r newStatus else r)
                  <$> rows t;
        seq := seq t |})).

(** [runAsync(DELETE_TASK, [taskId])], its [changes]. *)
Definition runAsync_delete (db : SQLiteDatabase) (taskId : Z) : M Z :=
  engine (λ t,
    (Z.of_nat (length (filter (λ r, id r = taskId) (rows t))),
     {| rows := filter (λ r, id r ≠ taskId) (rows t); seq := seq t |})).

(** [runAsync(`DELETE FROM tasks`)] *)
Definition runAsync_deleteAll (db : SQLiteDatabase) : M unit :=
  engine (λ t, ((), {| rows := []; seq := seq t |})).

(** ORDER BY id *)
Definition idLe (a b : Task) : Prop := id a ≤ id b.

#[global] Instance idLe_dec : RelDecision idLe.
Proof. intros a b. unfold idLe. apply _. Defined.

Definition orderById (rs : list Task) : list Task := merge_sort idLe rs.

(** [getAllAsync(SELECT_ALL_TASKS)] *)
Definition getAllAsync_all (db : SQLiteDatabase) : M (list Task) :=
  engine (λ t, (orderById (rows t), t)).

(** [getAllAsync(`SELECT * ... WHERE status = ? ORDER BY id`, [status])] *)
Definition getAllAsync_byStatus (db : SQLiteDatabase) (wanted : TaskStatus)
  : M (list Task) :=
  engine (λ t, (orderById (filter (λ r, status r = wanted) (rows t)), t)).

(** [getAllAsync(`SELECT status, COUNT( * ) as count ... GROUP BY status`)]:
    one row per status that occurs. *)
Definition getAllAsync_groupCount (db : SQLiteDatabase)
  : M (list (TaskStatus * Z)) :=
  engine (λ t,
    (omap (λ s, let n := length (filter (λ r, status r = s) (rows t)) in
                if decide (n = 0%nat) then None else Some (s, Z.of_nat n))
          [Completed; InProgress; ToDo],
     t)).

Definition closeAsync (db : SQLiteDatabase) : M unit :=
  engine (λ t, ((), t)).

End SQLite.

Declare Scope js_scope.
Delimit Scope js_scope with js.
Notation "'let*' x ':=' c 'in' k" := (SQLite.bind c (λ x, k))
  (at level 10, x name, c at level 100, k at level 200) : js_scope.

(* ===================================================================== *)
(** * The persistence adapter (services/SQLiteService.ts) *)
(* ===================================================================== *)

Module SQLiteService.
Import SQLite.
Local Open Scope js_scope.

Definition INITIAL_TASKS : list (Js.str * TaskStatus) :=
  [ (Js.lit "Plan weekly meal prep", ToDo);
    (Js.lit "Debug ant trail AI", InProgress);
    (Js.lit "Send out team retrospective summary", Completed);
    (Js.lit "Buy more honey dew drops", ToDo) ].

(** [for (const x of xs) { await body(x) }] *)
Fixpoint for_of {A} (xs : list A) (body : A → M unit) : M unit :=
  match xs with
  | [] => ret ()
  | x :: rest => let* _ := body x in for_of rest body
  end.

Definition initializeDatabase : M SQLiteDatabase :=
  try_catch
    (let* db := openDatabaseAsync in
     let* _ := set_this_database (Some db) in
     let* _ := execAsync_create db in
     ret db)
    (λ error, throw FailedToInitialize).

Definition seedInitialDataIfNeeded : M unit :=
  let* this_db := this_database in
  match this_db with
  | None => throw DatabaseNotInitialized
  | Some db =>
      try_catch
        (let* count := getFirstAsync_count db in
         if decide (count = 0) then
           for_of INITIAL_TASKS
             (λ task, let* _ := runAsync_insert db task.1 task.2 in ret ())
         else ret ())
        (λ error, throw error)
  end.

Definition getAllTasks : M (list Task) :=
  try_catch
    (let* this_db := this_database in
     match this_db with
     | None => throw DatabaseNotInitialized
     | Some db => let* result := getAllAsync_all db in ret result
     end)
    (λ error, ret []).

(** [addTask(title, status = 'To Do')]; [null] is [None]. *)
Definition addTask (newTitle : Js.str) (newStatus : TaskStatus) : M (option Task) :=
  try_catch
    (let* this_db := this_database in
     match this_db with
     | None => throw DatabaseNotInitialized
     | Some db =>
         let* lastInsertRowId := runAsync_insert db newTitle newStatus in
         if decide (lastInsertRowId ≠ 0) then
           ret (Some {| id := lastInsertRowId; title := newTitle; status := newStatus |})
         else ret None
     end)
    (λ error, ret None).

(** The call [addTask(title)], which takes the default status. *)
Definition addTask_default (newTitle : Js.str) : M (option Task) :=
  addTask newTitle ToDo.

Definition updateTaskStatus (taskId : Z) (newStatus : TaskStatus) : M bool :=
  try_catch
    (let* this_db := this_database in
     match this_db with
     | None => throw DatabaseNotInitialized
     | Some db =>
         let* changes := runAsync_update db newStatus taskId in
         if decide (0 < changes) then ret true else ret false
     end)
    (λ error, ret false).

Definition deleteTask (taskId : Z) : M bool :=
  try_catch
    (let* this_db := this_database in
     match this_db with
     | None => throw DatabaseNotInitialized
     | Some db =>
         let* changes := runAsync_delete db taskId in
         if decide (0 < changes) then ret true else ret false
     end)
    (λ error, ret false).

Definition getTasksByStatus (wanted : TaskStatus) : M (list Task) :=
  try_catch
    (let* this_db := this_database in
     match this_db with
     | None => throw DatabaseNotInitialized
     | Some db => let* result := getAllAsync_byStatus db wanted in ret result
     end)
    (λ error, ret []).

(** [{ 'To Do': 0, 'In Progress': 0, 'Completed': 0 }] *)
Definition zeroCounts : gmap TaskStatus Z :=
  {[ ToDo := 0; InProgress := 0; Completed := 0 ]}.

Definition getTaskCountByStatus : M (gmap TaskStatus Z) :=
  try_catch
    (let* this_db := this_database in
     match this_db with
     | None => throw DatabaseNotInitialized
     | Some db =>
         let* result := getAllAsync_groupCount db in
         let counts := zeroCounts in
         let counts := foldl (λ counts row, <[row.1 := row.2]> counts) counts result in
         ret counts
     end)
    (λ error, ret zeroCounts).

Definition clearAllTasks : M bool :=
  try_catch
    (let* this_db := this_database in
     match this_db with
     | None => throw DatabaseNotInitialized
     | Some db => let* _ := runAsync_deleteAll db in ret true
     end)
    (λ error, ret false).

Definition closeDatabase : M unit :=
  try_catch
    (let* this_db := this_database in
     match this_db with
     | Some db =>
         let* _ := closeAsync db in
         set_this_database None
     | None => ret ()
     end)
    (λ error, ret ()).

(** The service as the module exports it: [new SQLiteService()], no
    engine fault scheduled, over a database file holding [t]. *)
Definition sqliteService (t : Table) : World :=
  {| database := None; table := t; faults := [] |}.

Definition emptyTable : Table := {| rows := []; seq := 0 |}.

End SQLiteService.

(* ===================================================================== *)
(** * Vocabulary of the statements, and the inputs of the examples *)
(* ===================================================================== *)

Module Scenario.
Import TasksScreen SQLite.

(** A string with nothing but white space in it (the empty one included). *)
Definition blank (s : Js.str) : Prop := Forall (λ c, Js.isWhiteSpace c = true) s.

(** The user types [text] and presses the add button while the clock
    reads [now]. *)
Definition submit (text : Js.str) (now : Z) (st : Screen) : Screen :=
  TasksScreen.addTask now (setNewTaskTitle text st).

Definition wateringTitle : Js.str := Js.lit "  Water the ferns ".
Definition aClockReading : Z := 1700000000000.

Definition antTrailCard : Task :=
  {| id := 2; title := Js.lit "Debug ant trail AI"; status := InProgress |}.

Definition retrospectiveCard : Task :=
  {| id := 3; title := Js.lit "Send out team retrospective summary"; status := Completed |}.

(** The world after an engine call that threw. *)
Definition afterFault (w : World) : World :=
  {| database := database w; table := table w; faults := tail (faults w) |}.

(** A persistence failure: there is no open connection, or the engine
    call the operation makes throws. *)
Definition persistenceFails (w : World) : Prop :=
  database w = None ∨ nextFault w = true.

(** A service over a seeded table whose connection was never opened. *)
Definition unopened : World :=
  SQLiteService.sqliteService {| rows := TasksScreen.initialTasks; seq := 4 |}.

(** The service after [initializeDatabase()] and then [closeDatabase()],
    with an engine that never throws. *)
Definition closedService : World :=
  (SQLiteService.closeDatabase (SQLiteService.initializeDatabase unopened).2).2.

(** The table after the loop over [INITIAL_TASKS] has run to its end. *)
Definition seedTable (t : Table) : Table :=
  foldl (λ acc task, (insertRow task.1 task.2 acc).2) t SQLiteService.INITIAL_TASKS.

(** A freshly created database file, opened. *)
Definition freshlyOpened : World :=
  (SQLiteService.initializeDatabase (SQLiteService.sqliteService SQLiteService.emptyTable)).2.

End Scenario.

(* ===================================================================== *)
(** * What the screen renders (TaskCard, Column, ListView, BoardView) *)
(* ===================================================================== *)

Module TasksView.
Import TasksScreen.

(** [type ViewMode = 'list' | 'board'] *)
Inductive ViewMode : Set := ListMode | BoardMode.

#[global] Instance ViewMode_eq_dec : EqDecision ViewMode.
Proof. solve_decision. Defined.

(** [onMoveShouldSetPanResponder] *)
Definition onMoveShouldSetPanResponder (viewMode : ViewMode) : bool :=
  bool_decide (viewMode = BoardMode).

(** [onPanResponderGrant] on the card of [task] (the offset it stores only
    moves the picture). *)
Definition onPanResponderGrant (task : Task) (st : Screen) : Screen :=
  setDraggedTask (Some task) st.

(** What a rendered [TaskCard] holds: its task, whether the checkmark
    button is there, whether the pan handlers and the drag indicator are
    attached, and whether it carries [styles.draggedCard]. *)
Record Card : Type := mkCard {
  cardTask : Task;
  completeButton : bool;
  panHandlers : bool;
  dragIndicator : bool;
  draggedCard : bool
}.

(** [TaskCard({ task, showMoveButton = false })] *)
Definition TaskCard (viewMode : ViewMode) (st : Screen)
    (task : Task) (showMoveButton : bool) : Card :=
  {| cardTask := task;
     completeButton := showMoveButton && bool_decide (status task ≠ Completed);
     panHandlers := bool_decide (viewMode = BoardMode);
     dragIndicator := bool_decide (viewMode = BoardMode);
     draggedCard := match draggedTask st with
                    | Some dragged => bool_decide (id dragged = id task)
                    | None => false
                    end |}.

(** The [onPress] of the checkmark button of a card. *)
Definition pressComplete (card : Card) (st : Screen) : Screen :=
  moveTaskToCompleted (id (cardTask card)) st.

(** A rendered [Column]: header, counter, cards, and whether the
    'Drop tasks here' placeholder is shown. *)
Record ColumnView : Type := mkColumnView {
  columnTitle : TaskStatus;
  taskCount : nat;
  columnCards : list Card;
  emptyColumn : bool
}.

(** [Column({ status })]; [None] is the TypeError of reading [.length]
    off a missing entry of [groupedTasks]. *)
Definition Column (viewMode : ViewMode) (st : Screen) (column : TaskStatus)
  : option ColumnView :=
  match groupedTasks (tasks st) !! column with
  | None => None
  | Some columnTasks =>
      Some {| columnTitle := column;
              taskCount := length columnTasks;
              columnCards := (λ task, TaskCard viewMode st task false) <$> columnTasks;
              emptyColumn := bool_decide (length columnTasks = 0%nat) |}
  end.

(** One labelled section of the list view. *)
Record ListSection : Type := mkListSection {
  sectionTitle : TaskStatus;
  sectionCount : nat;
  sectionCards : list Card
}.

(** The body of [COLUMNS.map] in [ListView]: [Some None] is the [null]
    returned for a status without tasks. *)
Definition listSection (viewMode : ViewMode) (st : Screen) (column : TaskStatus)
  : option (option ListSection) :=
  match groupedTasks (tasks st) !! column with
  | None => None
  | Some statusTasks =>
      if decide (length statusTasks = 0%nat) then Some None
      else Some (Some {| sectionTitle := column;
                         sectionCount := length statusTasks;
                         sectionCards :=
                           (λ task, TaskCard viewMode st task true) <$> statusTasks |})
  end.

(** [ListView]: React renders nothing for a [null] child. *)
Definition ListView (viewMode : ViewMode) (st : Screen) : option (list ListSection) :=
  match mapM (listSection viewMode st) COLUMNS with
  | None => None
  | Some children => Some (omap (λ child, child) children)
  end.

Definition BoardView (viewMode : ViewMode) (st : Screen) : option (list ColumnView) :=
  mapM (Column viewMode st) COLUMNS.

Inductive Content : Type :=
| ListContent (sections : list ListSection)
| BoardContent (columns : list ColumnView).

(** [{viewMode === 'list' ? <ListView /> : <BoardView />}] *)
Definition mainContent (viewMode : ViewMode) (st : Screen) : option Content :=
  match viewMode with
  | ListMode => ListContent <$> ListView viewMode st
  | BoardMode => BoardContent <$> BoardView viewMode st
  end.

(** The tasks on display, top to bottom and left to right. *)
Definition shownTasks (c : Content) : list Task :=
  match c with
  | ListContent sections => sections ≫= (λ s, cardTask <$> sectionCards s)
  | BoardContent columns => columns ≫= (λ c, cardTask <$> columnCards c)
  end.

End TasksView.

(* ===================================================================== *)
(** * The maintenance script (scripts/seed-database.ts) *)
(* ===================================================================== *)

Module SeedScript.
Import SQLite SQLiteService.
Local Open Scope js_scope.

Definition SEED_TASKS : list (Js.str * TaskStatus) :=
  [ (Js.lit "Plan weekly meal prep", ToDo);
    (Js.lit "Debug ant trail AI", InProgress);
    (Js.lit "Send out team retrospective summary", Completed);
    (Js.lit "Buy more honey dew drops", ToDo);
    (Js.lit "Review team performance metrics", ToDo);
    (Js.lit "Update project documentation", InProgress);
    (Js.lit "Schedule quarterly planning meeting", ToDo) ].

(** How a run of the script ends: it runs to its end, [process.exit(code)]
    stops it on the spot (no [finally] block runs after that), or its
    promise is rejected with an error nobody catches. *)
Inductive ProcessEnd (A : Type) : Type :=
| Finished (a : A)
| Exit (code : Z)
| Rejected (e : Error).
Arguments Finished {A} a.
Arguments Exit {A} code.
Arguments Rejected {A} e.

(** The numbers [seedDatabase] prints. *)
Record Report : Type := mkReport {
  existingCount : nat;            (* existingTasks.length *)
  successCount : Z;
  errorCount : Z;
  finalCount : nat;               (* finalTasks.length *)
  taskCounts : gmap TaskStatus Z
}.

(** The [for] loop over [SEED_TASKS] with its two counters. *)
Fixpoint addSeedTasks (todo : list (Js.str * TaskStatus))
    (successCount errorCount : Z) : M (Z * Z) :=
  match todo with
  | [] => ret (successCount, errorCount)
  | task :: rest =>
      let* counters :=
        try_catch
          (let* newTask := addTask task.1 task.2 in
           match newTask with
           | Some _ => ret (successCount + 1, errorCount)
           | None => ret (successCount, errorCount + 1)
           end)
          (λ error, ret (successCount, errorCount + 1)) in
      addSeedTasks rest counters.1 counters.2
  end.

(** The [try] block of [seedDatabase]. *)
Definition seedDatabase_try : M Report :=
  let* _ := initializeDatabase in
  let* existingTasks := getAllTasks in
  let* _ := try_catch seedInitialDataIfNeeded (λ error, ret ()) in
  let* counters := addSeedTasks SEED_TASKS 0 0 in
  let* finalTasks := getAllTasks in
  let* counts := getTaskCountByStatus in
  ret {| existingCount := length existingTasks;
         successCount := counters.1;
         errorCount := counters.2;
         finalCount := length finalTasks;
         taskCounts := counts |}.

Definition seedDatabase (w : World) : ProcessEnd Report * World :=
  match seedDatabase_try w with
  | (Returned report, w') =>
      (* finally *)
      match try_catch closeDatabase (λ error, ret ()) w' with
      | (Returned _, w'') => (Finished report, w'')
      | (Thrown e, w'') => (Rejected e, w'')
      end
  | (Thrown error, w') => (Exit 1, w')       (* catch: process.exit(1) *)
  end.

Definition resetDatabase (w : World) : ProcessEnd unit * World :=
  match (let* _ := initializeDatabase in clearAllTasks) w with
  | (Returned true, w') =>
      (* finally *)
      match closeDatabase w' with
      | (Returned _, w'') => (Finished (), w'')
      | (Thrown e, w'') => (Rejected e, w'')
      end
  | (Returned false, w') => (Exit 1, w')     (* process.exit(1) *)
  | (Thrown error, w') => (Exit 1, w')       (* catch: process.exit(1) *)
  end.

(** What the command line made the script do. *)
Inductive Ran : Type :=
| RanSeed (end_ : ProcessEnd Report)
| RanReset (end_ : ProcessEnd unit)
| Usage (code : Z).

(** The dispatch on [process.argv.slice(2)]. *)
Definition main (args : list Js.str) (w : World) : Ran * World :=
  let command := head args in
  if decide (command = Some (Js.lit "reset")) then
    let '(e, w') := resetDatabase w in (RanReset e, w')
  else if decide (command = Some (Js.lit "seed")
                  ∨ command = None ∨ command = Some []) then
    let '(e, w') := seedDatabase w in (RanSeed e, w')
  else (Usage 1, w).

End SeedScript.

(* ===================================================================== *)
(** * Conditions on worlds, tables and task lists *)
(* ===================================================================== *)

Module Conditions.
Import SQLite.

(** The connection is open. *)
Definition ready (w : World) : Prop := is_Some (database w).

(** No engine call is going to throw. *)
Definition quiet (w : World) : Prop := faults w = [].

(** A table as AUTOINCREMENT keeps it: ids ascend strictly along the rows,
    are positive, and none exceeds the sequence counter. *)
Definition wellFormed (t : Table) : Prop :=
  StronglySorted Z.lt (id <$> rows t) ∧
  Forall (λ r, 0 < id r ≤ Z.of_N (seq t)) (rows t).

(** The computation keeps a property of the table, however it ends. *)
Definition keeps (P : Table → Prop) {A} (c : M A) : Prop :=
  ∀ w, P (table w) → P (table (c w).2).

(** A title as [addTask] stores it: not empty, and white space neither
    at its start nor at its end. *)
Definition trimmed (s : Js.str) : Prop :=
  s ≠ [] ∧
  (∀ c, head s = Some c → Js.isWhiteSpace c = false) ∧
  (∀ c, last s = Some c → Js.isWhiteSpace c = false).

End Conditions.

(* ===================================================================== *)
(** * Sequences of calls on the adapter *)
(* ===================================================================== *)

Module Calls.
Import SQLite.

(** One call of a method of the service, or a run of the script. *)
Inductive Call : Type :=
| CallInitialize
| CallSeed
| CallGetAll
| CallAdd (newTitle : Js.str) (newStatus : TaskStatus)
| CallUpdate (taskId : Z) (newStatus : TaskStatus)
| CallDelete (taskId : Z)
| CallByStatus (wanted : TaskStatus)
| CallCount
| CallClear
| CallClose
| RunSeedScript
| RunResetScript.

(** The world after the call, whatever it returned or threw. *)
Definition perform (w : World) (c : Call) : World :=
  match c with
  | CallInitialize => (SQLiteService.initializeDatabase w).2
  | CallSeed => (SQLiteService.seedInitialDataIfNeeded w).2
  | CallGetAll => (SQLiteService.getAllTasks w).2
  | CallAdd newTitle newStatus => (SQLiteService.addTask newTitle newStatus w).2
  | CallUpdate taskId newStatus => (SQLiteService.updateTaskStatus taskId newStatus w).2
  | CallDelete taskId => (SQLiteService.deleteTask taskId w).2
  | CallByStatus wanted => (SQLiteService.getTasksByStatus wanted w).2
  | CallCount => (SQLiteService.getTaskCountByStatus w).2
  | CallClear => (SQLiteService.clearAllTasks w).2
  | CallClose => (SQLiteService.closeDatabase w).2
  | RunSeedScript => (SeedScript.seedDatabase w).2
  | RunResetScript => (SeedScript.resetDatabase w).2
  end.

Definition performAll (calls : list Call) (w : World) : World :=
  foldl perform w calls.

End Calls.

(* ===================================================================== *)
(** * Properties of [trim] *)
(* ===================================================================== *)

Section Trim.
Import Scenario.

Lemma trimStart_blank s : blank s → Js.trimStart s = [].
Proof.
  induction 1 as [|c s Hc _ IH]; simpl; [done|]. by rewrite Hc.
Qed.

Lemma trimStart_nil s : Js.trimStart s = [] → blank s.
Proof.
  induction s as [|c s IH]; simpl; [constructor|].
  destruct (Js.isWhiteSpace c) eqn:Hc; [|done].
  intros H. constructor; [done | by apply IH].
Qed.

(** What [trimStart] leaves never starts with white space. *)
Lemma trimStart_head s c rest :
  Js.trimStart s = c :: rest → Js.isWhiteSpace c = false.
Proof.
  induction s as [|d s IH]; simpl; [done|].
  destruct (Js.isWhiteSpace d) eqn:Hd; [auto|].
  intros [= -> _]. done.
Qed.

Lemma trim_blank s : blank s → Js.trim s = [].
Proof.
  intros H. unfold Js.trim, Js.trimEnd. by rewrite (trimStart_blank s H).
Qed.

Lemma trim_nil s : Js.trim s = [] → blank s.
Proof.
  unfold Js.trim, Js.trimEnd. intros H.
  apply (f_equal (@rev N)) in H. rewrite rev_involutive in H. simpl in H.
  apply trimStart_nil in H.
  apply Forall_rev in H. rewrite rev_involutive in H.
  apply trimStart_nil.
  destruct (Js.trimStart s) as [|c rest] eqn:E; [done|].
  apply trimStart_head in E. inversion H; congruence.
Qed.

Lemma truthy_trim_false s : Js.truthy (Js.trim s) = false ↔ blank s.
Proof.
  split.
  - intros H. apply trim_nil. by destruct (Js.trim s).
  - intros H. by rewrite trim_blank.
Qed.

Lemma truthy_trim_true s : Js.truthy (Js.trim s) = true ↔ ¬ blank s.
Proof.
  rewrite <- truthy_trim_false. destruct (Js.truthy (Js.trim s)); naive_solver.
Qed.

End Trim.

(* ===================================================================== *)
(** * Properties of the task screen *)
(* ===================================================================== *)

Section TaskStore.
Import TasksScreen Scenario.

Lemma submit_blank text now st :
  blank text → submit text now st = setNewTaskTitle text st.
Proof.
  intros H. unfold submit, addTask. simpl.
  by rewrite (proj2 (truthy_trim_false text) H).
Qed.

Lemma submit_valid text now st :
  ¬ blank text →
  submit text now st =
    {| tasks := tasks st ++ [ {| id := now; title := Js.trim text; status := ToDo |} ];
       newTaskTitle := [];
       draggedTask := draggedTask st |}.
Proof.
  intros H. unfold submit, addTask. simpl.
  by rewrite (proj2 (truthy_trim_true text) H).
Qed.




(** ** The gesture interpreter *)

Lemma Qltb_true x y : Js.Qltb x y = true ↔ (x < y)%Q.
Proof.
  unfold Js.Qltb. rewrite negb_true_iff, <- not_true_iff_false, Qle_bool_iff.
  split; [apply Qnot_le_lt | apply Qlt_not_le].
Qed.

Lemma Qltb_false x y : Js.Qltb x y = false ↔ (y <= x)%Q.
Proof.
  unfold Js.Qltb. rewrite negb_false_iff. apply Qle_bool_iff.
Qed.

Lemma beyond_right dx : (50 < dx)%Q → (50 < Qabs dx)%Q.
Proof. intros H. eapply Qlt_le_trans; [exact H | apply Qle_Qabs]. Qed.

Lemma beyond_left dx : (dx < -50)%Q → (50 < Qabs dx)%Q.
Proof.
  intros H. rewrite <- Qabs_opp.
  eapply Qlt_le_trans; [| apply Qle_Qabs].
  apply Qopp_lt_compat in H. exact H.
Qed.

Lemma left_not_right dx : (dx < -50)%Q → Js.Qltb 50%Q dx = false.
Proof.
  intros H. apply Qltb_false. apply Qlt_le_weak.
  eapply Qlt_trans; [exact H | reflexivity].
Qed.

Lemma right_not_left dx : (50 < dx)%Q → Js.Qltb dx (-50)%Q = false.
Proof.
  intros H. apply Qltb_false. apply Qlt_le_weak.
  eapply Qlt_trans; [| exact H]. reflexivity.
Qed.

(** C2, as amended.  A release with |dx| <= 50 emits no transition (so
    49 emits none, and neither does exactly 50).  A release with dx > 50
    on a task that is not 'Completed' emits exactly one [moveTask], to the
    status one index to the right; a release with dx < -50 on a task that
    is not 'To Do' emits exactly one [moveTask], to the status one index
    to the left (so 51 emits one). *)
Theorem release_threshold (task : Task) (dx : Q) (st : Screen) :
  ((Qabs dx <= 50)%Q →
     releaseCommand task dx = None ∧
     onPanResponderRelease task dx st = Some (setDraggedTask None st)) ∧
  ((50 < dx)%Q → status task ≠ Completed →
     ∃ next, releaseCommand task dx = Some (id task, Some next) ∧
             Js.indexOf COLUMNS next = Js.indexOf COLUMNS (status task) + 1 ∧
             onPanResponderRelease task dx st =
               Some (setDraggedTask None (moveTask (id task) next st))) ∧
  ((dx < -50)%Q → status task ≠ ToDo →
     ∃ prev, releaseCommand task dx = Some (id task, Some prev) ∧
             Js.indexOf COLUMNS prev = Js.indexOf COLUMNS (status task) - 1 ∧
             onPanResponderRelease task dx st =
               Some (setDraggedTask None (moveTask (id task) prev st))).
Proof.
  unfold onPanResponderRelease. split; [|split].
  - intros H. unfold releaseCommand.
    by rewrite (proj2 (Qltb_false _ _) H).
  - intros H Hs. unfold releaseCommand, newIndex.
    rewrite (proj2 (Qltb_true _ _) (beyond_right dx H)).
    rewrite (proj2 (Qltb_true _ _) H).
    destruct (status task); [by exists InProgress | by exists Completed | done].
  - intros H Hs. unfold releaseCommand, newIndex.
    rewrite (proj2 (Qltb_true _ _) (beyond_left dx H)).
    rewrite (left_not_right dx H), (proj2 (Qltb_true _ _) H).
    destruct (status task); [done | by exists ToDo | by exists InProgress].
Qed.

Lemma release_threshold_witness :
  releaseCommand antTrailCard 49%Q = None ∧
  releaseCommand antTrailCard 51%Q = Some (2, Some Completed) ∧
  releaseCommand antTrailCard (-51)%Q = Some (2, Some ToDo).
Proof.
  split; [|split].
  - apply (release_threshold antTrailCard 49%Q initialScreen). by vm_compute.
  - destruct (release_threshold antTrailCard 51%Q initialScreen) as (_ & Hright & _).
    destruct Hright as (next & -> & Hnext & _); [by vm_compute | done |].
    by destruct next.
  - destruct (release_threshold antTrailCard (-51)%Q initialScreen) as (_ & _ & Hleft).
    destruct Hleft as (prev & -> & Hprev & _); [by vm_compute | done |].
    by destruct prev.
Defined.

(** A displacement of exactly 50 is not below 50, the card is in the
    middle column, and still nothing is emitted. *)
Lemma release_at_threshold_emits_nothing :
  (50 <= Qabs 50)%Q ∧
  status antTrailCard = InProgress ∧
  releaseCommand antTrailCard 50%Q = None ∧
  releaseCommand antTrailCard (-50)%Q = None.
Proof. repeat split. by vm_compute. Qed.

(** C3.  A release to the right beyond the threshold on a 'Completed'
    card, and one to the left beyond the threshold on a 'To Do' card, emit
    no transition; whatever the card and the displacement, the index the
    handler computes lies in {0, 1, 2}, so [COLUMNS[newIndex]] is a status
    and the handler always completes with a well-formed screen. *)
Theorem release_clamped (task : Task) (dx : Q) (st : Screen) :
  (status task = Completed → (50 < dx)%Q → releaseCommand task dx = None) ∧
  (status task = ToDo → (dx < -50)%Q → releaseCommand task dx = None) ∧
  (let i := newIndex (Js.indexOf COLUMNS (status task)) dx in
   0 ≤ i ≤ 2 ∧ is_Some (Js.at_index COLUMNS i)) ∧
  (∀ taskId target, releaseCommand task dx = Some (taskId, target) → is_Some target) ∧
  is_Some (onPanResponderRelease task dx st).
Proof.
  split; [|split; [|split; [|split]]].
  - intros Hs H. unfold releaseCommand, newIndex. rewrite Hs.
    rewrite (proj2 (Qltb_true _ _) H), (right_not_left dx H).
    by destruct (Js.Qltb 50%Q (Qabs dx)).
  - intros Hs H. unfold releaseCommand, newIndex. rewrite Hs.
    rewrite (left_not_right dx H), (proj2 (Qltb_true _ _) H).
    by destruct (Js.Qltb 50%Q (Qabs dx)).
  - unfold newIndex.
    destruct (status task), (Js.Qltb 50%Q dx), (Js.Qltb dx (-50)%Q);
      cbv zeta; (split; [by vm_compute | vm_compute; by eexists]).
  - intros taskId target. unfold releaseCommand, newIndex.
    destruct (status task), (Js.Qltb 50%Q (Qabs dx)), (Js.Qltb 50%Q dx),
      (Js.Qltb dx (-50)%Q); simpl; intros [= <- <-] || discriminate; by eexists.
  - unfold onPanResponderRelease, releaseCommand, newIndex.
    destruct (status task), (Js.Qltb 50%Q (Qabs dx)), (Js.Qltb 50%Q dx),
      (Js.Qltb dx (-50)%Q); simpl; by eexists.
Qed.

Lemma release_clamped_witness :
  releaseCommand retrospectiveCard 120%Q = None.
Proof.
  destruct (release_clamped retrospectiveCard 120%Q initialScreen) as [Hright _].
  apply Hright; [reflexivity | by vm_compute].
Defined.

(** ** Grouping *)

Lemma groupedTasks_lookup (ts : list Task) (column : TaskStatus) :
  groupedTasks ts !! column = Some (filter (λ task, status task = column) ts).
Proof.
  unfold groupedTasks, COLUMNS. simpl.
  destruct column; by simplify_map_eq.
Qed.

Lemma filter_by_status_complete (ts : list Task) :
  filter (λ task, status task = ToDo) ts
    ++ filter (λ task, status task = InProgress) ts
    ++ filter (λ task, status task = Completed) ts ≡ₚ ts.
Proof.
  induction ts as [|t ts IH]; [done|].
  rewrite !filter_cons. destruct t as [i ttl []]; simpl.
  - by rewrite IH.
  - rewrite <- Permutation_middle. by rewrite IH.
  - rewrite app_assoc, <- Permutation_middle, <- app_assoc. by rewrite IH.
Qed.

Lemma filter_by_status_disjoint (ts : list Task) (a b : TaskStatus) (t : Task) :
  t ∈ filter (λ task, status task = a) ts →
  t ∈ filter (λ task, status task = b) ts → a = b.
Proof.
  rewrite !list_elem_of_filter. intros [<- _] [<- _]. done.
Qed.

(** C4.  After any sequence of actions (typing, adding, completing,
    dropping a card, setting a status) from any screen, [groupedTasks] has an entry for each
    of the three statuses; an entry holds tasks of its status only, no
    task lies in two entries, the three entries together are the task
    list, each task as often as it occurs there, and each entry keeps the
    order of the task list. *)
Theorem groupedTasks_partition (acts : list Action) (st0 : Screen) :
  let ts := tasks (run acts st0) in
  ∃ todo doing finished : list Task,
    groupedTasks ts !! ToDo = Some todo ∧
    groupedTasks ts !! InProgress = Some doing ∧
    groupedTasks ts !! Completed = Some finished ∧
    (Forall (λ t, status t = ToDo) todo ∧
     Forall (λ t, status t = InProgress) doing ∧
     Forall (λ t, status t = Completed) finished) ∧
    (∀ t, ¬ (t ∈ todo ∧ t ∈ doing) ∧ ¬ (t ∈ todo ∧ t ∈ finished) ∧
          ¬ (t ∈ doing ∧ t ∈ finished)) ∧
    todo ++ doing ++ finished ≡ₚ ts ∧
    (length todo + length doing + length finished = length ts)%nat ∧
    (todo `sublist_of` ts ∧ doing `sublist_of` ts ∧ finished `sublist_of` ts).
Proof.
  intros ts. generalize ts. clear ts acts st0. intros ts.
  exists (filter (λ task, status task = ToDo) ts),
         (filter (λ task, status task = InProgress) ts),
         (filter (λ task, status task = Completed) ts).
  rewrite !groupedTasks_lookup.
  split; [done|]. split; [done|]. split; [done|].
  split; [|split; [|split; [|split]]].
  - repeat split; apply Forall_forall; intros t Ht;
      by apply list_elem_of_filter in Ht as [? _].
  - intros t. repeat split; intros [H1 H2];
      by pose proof (filter_by_status_disjoint _ _ _ _ H1 H2).
  - apply filter_by_status_complete.
  - rewrite <- !length_app, <- app_assoc.
    apply Permutation_length, filter_by_status_complete.
  - repeat split; apply sublist_filter.
Qed.

(** ** Moving a task *)

(** C5.  [moveTask] with an id no task carries leaves the screen as it
    is.  In general it keeps the length and the order of the list: the
    task at each position stays, with its id and title, and gets the new
    status exactly when its id is the given one; the input field and the
    dragged card are not touched. *)
Theorem moveTask_frame (taskId : Z) (newStatus : TaskStatus) (st : Screen) :
  let st' := moveTask taskId newStatus st in
  ((∀ t, t ∈ tasks st → id t ≠ taskId) → st' = st) ∧
  length (tasks st') = length (tasks st) ∧
  (∀ (i : nat) (t : Task), tasks st !! i = Some t →
     ∃ t', tasks st' !! i = Some t' ∧
           id t' = id t ∧ title t' = title t ∧
           (id t = taskId → status t' = newStatus) ∧
           (id t ≠ taskId → t' = t)) ∧
  id <$> tasks st' = id <$> tasks st ∧
  title <$> tasks st' = title <$> tasks st ∧
  newTaskTitle st' = newTaskTitle st ∧
  draggedTask st' = draggedTask st.
Proof.
  intros st'. subst st'. destruct st as [ts text dragged]. unfold moveTask. simpl.
  split; [|split; [|split; [|split; [|split]]]].
  - intros Hnone. unfold setTasks. simpl. f_equal.
    induction ts as [|t ts IH]; [done|]. simpl.
    rewrite decide_False by (apply Hnone; left).
    f_equal. apply IH. intros t' Ht'. apply Hnone. by right.
  - by rewrite length_fmap.
  - intros i t Hi. rewrite list_lookup_fmap, Hi. simpl.
    eexists. split; [reflexivity|].
    destruct (decide (id t = taskId)); simpl; naive_solver.
  - rewrite <- list_fmap_compose. apply list_fmap_ext.
    intros i t _. simpl. by destruct (decide (id t = taskId)).
  - rewrite <- list_fmap_compose. apply list_fmap_ext.
    intros i t _. simpl. by destruct (decide (id t = taskId)).
  - done.
Qed.

Lemma moveTask_frame_witness :
  moveTask 7 Completed initialScreen = initialScreen.
Proof.
  apply (moveTask_frame 7 Completed initialScreen).
  intros t Ht. simpl in Ht. unfold initialTasks in Ht.
  repeat (apply elem_of_cons in Ht as [-> | Ht]; [by vm_compute|]).
  by apply elem_of_nil in Ht.
Defined.

End TaskStore.

(* ===================================================================== *)
(** * Properties of the persistence adapter *)
(* ===================================================================== *)

Section Adapter.
Import SQLite SQLiteService Scenario.

Lemma engine_throws {A} (f : Table → A * Table) (w : World) :
  nextFault w = true → engine f w = (Thrown EngineError, afterFault w).
Proof.
  unfold nextFault, engine, afterFault.
  destruct (faults w) as [|[] later]; done.
Qed.

Lemma engine_returns {A} (f : Table → A * Table) (w : World) :
  nextFault w = false →
  engine f w =
    (Returned (f (table w)).1,
     {| database := database w; table := (f (table w)).2; faults := tail (faults w) |}).
Proof.
  unfold nextFault, engine.
  destruct (faults w) as [|[] later]; try done; by destruct (f (table w)).
Qed.

(** An engine call changes the table only when it returns. *)
Lemma engine_outcome {A} (f : Table → A * Table) (w : World) :
  (engine f w = (Thrown EngineError, afterFault w) ∧ nextFault w = true) ∨
  (engine f w =
     (Returned (f (table w)).1,
      {| database := database w; table := (f (table w)).2; faults := tail (faults w) |})
   ∧ nextFault w = false).
Proof.
  destruct (nextFault w) eqn:E; [left | right]; split; auto using engine_throws, engine_returns.
Qed.

Ltac unfold_service :=
  unfold getAllTasks, getTasksByStatus, getTaskCountByStatus, updateTaskStatus,
    deleteTask, clearAllTasks, addTask, closeDatabase, initializeDatabase,
    seedInitialDataIfNeeded,
    getAllAsync_all, getAllAsync_byStatus, getAllAsync_groupCount, runAsync_update,
    runAsync_delete, runAsync_deleteAll, runAsync_insert, closeAsync,
    openDatabaseAsync, execAsync_create, getFirstAsync_count,
    try_catch, bind, this_database, set_this_database, throw, ret.

Lemma zeroCounts_lookup (s : TaskStatus) : zeroCounts !! s = Some 0.
Proof. by destruct s. Qed.

(** C7.  No query or mutation of the adapter lets an exception escape,
    whatever the state of the connection and of the engine; and on a
    persistence failure each one returns its safe default: [getAllTasks]
    and [getTasksByStatus] the empty list, [getTaskCountByStatus] zero for
    every status, [updateTaskStatus], [deleteTask] and [clearAllTasks]
    false, and [addTask] null; the table is left as it was. *)
Theorem safe_default_propagation
    (taskId : Z) (wanted newStatus : TaskStatus) (newTitle : Js.str) :
  (∀ w, ∃ (l1 l2 : list Task) (c : gmap TaskStatus Z) (b1 b2 b3 : bool) (o : option Task),
      (getAllTasks w).1 = Returned l1 ∧
      (getTasksByStatus wanted w).1 = Returned l2 ∧
      (getTaskCountByStatus w).1 = Returned c ∧
      (updateTaskStatus taskId newStatus w).1 = Returned b1 ∧
      (deleteTask taskId w).1 = Returned b2 ∧
      (clearAllTasks w).1 = Returned b3 ∧
      (addTask newTitle newStatus w).1 = Returned o) ∧
  (∀ w, persistenceFails w →
      (getAllTasks w).1 = Returned [] ∧
      (getTasksByStatus wanted w).1 = Returned [] ∧
      (getTaskCountByStatus w).1 = Returned zeroCounts ∧
      (∀ s, zeroCounts !! s = Some 0) ∧
      (updateTaskStatus taskId newStatus w).1 = Returned false ∧
      (deleteTask taskId w).1 = Returned false ∧
      (clearAllTasks w).1 = Returned false ∧
      (addTask newTitle newStatus w).1 = Returned None ∧
      table (getAllTasks w).2 = table w ∧
      table (getTasksByStatus wanted w).2 = table w ∧
      table (getTaskCountByStatus w).2 = table w ∧
      table (updateTaskStatus taskId newStatus w).2 = table w ∧
      table (deleteTask taskId w).2 = table w ∧
      table (clearAllTasks w).2 = table w ∧
      table (addTask newTitle newStatus w).2 = table w).
Proof.
  split.
  - intros w. unfold_service.
    destruct (database w) as [db|]; simpl.
    + destruct (nextFault w) eqn:E.
      * rewrite !(engine_throws _ _ E). simpl. by repeat eexists.
      * rewrite !(engine_returns _ _ E). simpl.
        repeat match goal with |- context [decide ?P] => destruct (decide P) end;
          simpl; by repeat eexists.
    + by repeat eexists.
  - intros w Hfail. unfold_service.
    destruct (database w) as [db|] eqn:Hdb; simpl.
    + destruct Hfail as [Hnone | E]; [congruence|].
      rewrite !(engine_throws _ _ E). simpl.
      repeat split; auto using zeroCounts_lookup.
    + repeat split; auto using zeroCounts_lookup.
Qed.

Lemma safe_default_propagation_witness :
  (getAllTasks unopened).1 = Returned [] ∧
  (addTask (Js.lit "Groom the aphids") ToDo unopened).1 = Returned None.
Proof.
  destruct (safe_default_propagation 2 Completed ToDo (Js.lit "Groom the aphids"))
    as [_ Hdefault].
  destruct (Hdefault unopened) as (H1 & _ & _ & _ & _ & _ & _ & H2 & _).
  { by left. }
  by split.
Defined.

(** ** The connection life cycle *)

(** C6, as amended.  The connection handle is null on a service that was
    never initialised, and again after a [closeDatabase] whose engine call
    did not throw.  While it is null, [seedInitialDataIfNeeded] throws
    'Database not initialized'; every other data operation raises that
    error internally, catches it, and returns its safe default (empty
    list, zero counts, false, null); none of them touches the table. *)
Theorem not_initialized_behaviour
    (taskId : Z) (wanted newStatus : TaskStatus) (newTitle : Js.str) :
  (∀ t, database (sqliteService t) = None) ∧
  (∀ w, nextFault w = false →
        (closeDatabase w).1 = Returned () ∧
        database (closeDatabase w).2 = None ∧
        table (closeDatabase w).2 = table w) ∧
  (∀ w, database w = None →
        seedInitialDataIfNeeded w = (Thrown DatabaseNotInitialized, w) ∧
        getAllTasks w = (Returned [], w) ∧
        getTasksByStatus wanted w = (Returned [], w) ∧
        getTaskCountByStatus w = (Returned zeroCounts, w) ∧
        updateTaskStatus taskId newStatus w = (Returned false, w) ∧
        deleteTask taskId w = (Returned false, w) ∧
        clearAllTasks w = (Returned false, w) ∧
        addTask newTitle newStatus w = (Returned None, w)).
Proof.
  split; [done|]. split.
  - intros w E. unfold_service.
    destruct (database w) as [db|] eqn:Hdb; simpl; [|done].
    by rewrite (engine_returns _ _ E).
  - intros w Hnone. unfold_service. rewrite Hnone. simpl. done.
Qed.

Lemma not_initialized_behaviour_witness :
  seedInitialDataIfNeeded closedService = (Thrown DatabaseNotInitialized, closedService) ∧
  clearAllTasks closedService = (Returned false, closedService).
Proof.
  destruct (not_initialized_behaviour 2 Completed ToDo []) as (_ & _ & Hnull).
  destruct (Hnull closedService) as (Hseed & _ & _ & _ & _ & _ & Hclear & _);
    [reflexivity|].
  by split.
Defined.

(** After initialize and close, the queries and mutations return; they do
    not fail. *)
Lemma closed_service_returns_defaults :
  database closedService = None ∧
  (getAllTasks closedService).1 = Returned [] ∧
  (getTasksByStatus ToDo closedService).1 = Returned [] ∧
  (getTaskCountByStatus closedService).1 = Returned zeroCounts ∧
  (updateTaskStatus 2 Completed closedService).1 = Returned false ∧
  (deleteTask 2 closedService).1 = Returned false ∧
  (clearAllTasks closedService).1 = Returned false ∧
  (addTask (Js.lit "Groom the aphids") ToDo closedService).1 = Returned None ∧
  (getAllTasks closedService).1 ≠ Thrown DatabaseNotInitialized.
Proof. repeat split; done. Qed.

(** ** Seeding *)

Lemma seedTable_rows (t : Table) :
  rows (seedTable t) =
    rows t ++
      [ {| id := Z.of_N (seq t) + 1; title := Js.lit "Plan weekly meal prep";
           status := ToDo |};
        {| id := Z.of_N (seq t) + 2; title := Js.lit "Debug ant trail AI";
           status := InProgress |};
        {| id := Z.of_N (seq t) + 3; title := Js.lit "Send out team retrospective summary";
           status := Completed |};
        {| id := Z.of_N (seq t) + 4; title := Js.lit "Buy more honey dew drops";
           status := ToDo |} ].
Proof.
  unfold seedTable, INITIAL_TASKS, insertRow. simpl.
  rewrite <- !app_assoc. simpl.
  rewrite !N2Z.inj_succ.
  replace (Z.succ (Z.of_N (seq t))) with (Z.of_N (seq t) + 1) by lia.
  replace (Z.succ (Z.of_N (seq t) + 1)) with (Z.of_N (seq t) + 2) by lia.
  replace (Z.succ (Z.of_N (seq t) + 2)) with (Z.of_N (seq t) + 3) by lia.
  replace (Z.succ (Z.of_N (seq t) + 3)) with (Z.of_N (seq t) + 4) by lia.
  done.
Qed.

Lemma for_of_insert_returned db (l : list (Js.str * TaskStatus)) (w w' : World) :
  for_of l (λ task, (let* _ := runAsync_insert db task.1 task.2 in ret ())%js) w
    = (Returned (), w') →
  table w' = foldl (λ acc task, (insertRow task.1 task.2 acc).2) (table w) l.
Proof.
  revert w. induction l as [|task l IH]; intros w; simpl.
  - by intros [= <-].
  - unfold bind at 1 2, runAsync_insert, ret.
    destruct (engine_outcome (insertRow task.1 task.2) w) as [[-> _] | [-> _]];
      [done|].
    intros H. by rewrite (IH _ H).
Qed.

Lemma for_of_insert_quiet db (l : list (Js.str * TaskStatus)) (w : World) :
  faults w = [] →
  (for_of l (λ task, (let* _ := runAsync_insert db task.1 task.2 in ret ())%js) w).1
    = Returned ().
Proof.
  revert w. induction l as [|task l IH]; intros w Hq; simpl; [done|].
  unfold bind at 1 2, runAsync_insert, ret.
  rewrite engine_returns by (unfold nextFault; by rewrite Hq).
  apply IH. simpl. by rewrite Hq.
Qed.

(** The seeding method with its two [try]/[catch] layers read off. *)
Lemma seed_unfold (w : World) :
  seedInitialDataIfNeeded w =
    match database w with
    | None => (Thrown DatabaseNotInitialized, w)
    | Some db =>
        match getFirstAsync_count db w with
        | (Returned count, w') =>
            if decide (count = 0) then
              for_of INITIAL_TASKS
                (λ task, (let* _ := runAsync_insert db task.1 task.2 in ret ())%js) w'
            else (Returned (), w')
        | (Thrown e, w') => (Thrown e, w')
        end
    end.
Proof.
  unfold seedInitialDataIfNeeded, try_catch, this_database, throw.
  unfold bind at 1 2.
  destruct (database w) as [db|]; [|done].
  destruct (getFirstAsync_count db w) as [[count|e] w']; [|done].
  destruct (decide (count = 0)) as [Hzero|Hmore]; [|done].
  by destruct (for_of _ _ w') as [[[]|err] w''].
Qed.

Lemma seed_nonempty (w : World) :
  rows (table w) ≠ [] → table (seedInitialDataIfNeeded w).2 = table w.
Proof.
  intros Hrows. rewrite seed_unfold. unfold getFirstAsync_count.
  destruct (database w) as [db|]; [|done].
  destruct (engine_outcome (λ t, (Z.of_nat (length (rows t)), t)) w)
    as [[-> _] | [-> _]]; [done|].
  cbn [fst snd]. rewrite decide_False; [done|].
  destruct (rows (table w)); [done | simpl; lia].
Qed.

Lemma seed_empty_returned (w w1 : World) :
  seedInitialDataIfNeeded w = (Returned (), w1) →
  rows (table w) = [] → table w1 = seedTable (table w).
Proof.
  intros Hrun Hrows. revert Hrun. rewrite seed_unfold. unfold getFirstAsync_count.
  destruct (database w) as [db|]; [|done].
  destruct (engine_outcome (λ t, (Z.of_nat (length (rows t)), t)) w)
    as [[-> _] | [-> _]]; [done|].
  cbn [fst snd]. rewrite Hrows. rewrite decide_True by done.
  intros Hloop. by apply for_of_insert_returned in Hloop.
Qed.

Lemma seed_quiet (w : World) db :
  database w = Some db → faults w = [] →
  (seedInitialDataIfNeeded w).1 = Returned ().
Proof.
  intros Hdb Hq. rewrite seed_unfold, Hdb. unfold getFirstAsync_count.
  rewrite engine_returns by (unfold nextFault; by rewrite Hq). cbn [fst snd].
  destruct (decide _) as [Hzero|Hmore]; [|done].
  apply for_of_insert_quiet. simpl. by rewrite Hq.
Qed.

(** C9.  A call of [seedInitialDataIfNeeded] that completes has, on a
    table with no rows, inserted the four default tasks in their given
    order (with the next four ids), and on any other table inserted
    nothing; a second call right after it inserts nothing; and
    [initializeDatabase] never changes the table.  On an open
    connection with an engine that does not throw the call does
    complete. *)
Theorem seed_idempotent (w w1 : World)
    (Hfirst : seedInitialDataIfNeeded w = (Returned (), w1)) :
  (rows (table w) = [] →
     table w1 = seedTable (table w) ∧
     (id <$> rows (table w1)) = (λ k, Z.of_N (seq (table w)) + k) <$> [1; 2; 3; 4] ∧
     ((λ r, (title r, status r)) <$> rows (table w1)) = INITIAL_TASKS) ∧
  (rows (table w) ≠ [] → table w1 = table w) ∧
  table (seedInitialDataIfNeeded w1).2 = table w1 ∧
  (∀ w0, table (initializeDatabase w0).2 = table w0) ∧
  (∀ w0 db, database w0 = Some db → faults w0 = [] →
            (seedInitialDataIfNeeded w0).1 = Returned ()).
Proof.
  split; [|split; [|split; [|split]]].
  - intros Hrows. pose proof (seed_empty_returned _ _ Hfirst Hrows) as ->.
    split; [done|]. rewrite seedTable_rows, Hrows. by split.
  - intros Hrows. pose proof (seed_nonempty w Hrows) as H.
    by rewrite Hfirst in H.
  - apply seed_nonempty.
    destruct (rows (table w)) as [|r rs] eqn:Hrows.
    + rewrite (seed_empty_returned _ _ Hfirst Hrows), seedTable_rows, Hrows. done.
    + pose proof (seed_nonempty w) as H. rewrite Hfirst, Hrows in H.
      simpl in H. rewrite H by done. by rewrite Hrows.
  - intros w0. unfold_service.
    destruct (engine_outcome (λ t, (Connection, t)) w0) as [[-> _] | [-> _]];
      simpl; [done|].
    match goal with |- context [engine ?f ?w'] =>
      destruct (engine_outcome f w') as [[-> _] | [-> _]] end; done.
  - apply seed_quiet.
Qed.

Lemma seed_idempotent_witness :
  rows (table (seedInitialDataIfNeeded freshlyOpened).2) =
    TasksScreen.initialTasks ∧
  table (seedInitialDataIfNeeded (seedInitialDataIfNeeded freshlyOpened).2).2 =
    table (seedInitialDataIfNeeded freshlyOpened).2.
Proof.
  pose proof (seed_idempotent freshlyOpened (seedInitialDataIfNeeded freshlyOpened).2
                eq_refl) as (Hempty & _ & Hagain & _).
  split; [|exact Hagain].
  destruct (Hempty eq_refl) as [-> _]. reflexivity.
Defined.

(** ** Inserting *)

(** C10.  On an open connection whose engine call does not throw, the
    adapter's [addTask] writes a row for any title whatsoever -- the empty
    string and white space included -- and any status, and returns a task
    with exactly that title and status and the id the table assigned; a
    call without a status takes 'To Do'.  The screen's [addTask], by
    contrast, appends nothing for a blank title. *)
Theorem insert_performs_no_validation
    (w : World) (db : SQLiteDatabase) (newTitle : Js.str) (newStatus : TaskStatus)
    (Hopen : database w = Some db) (Hengine : nextFault w = false) :
  let created (st : TaskStatus) :=
    {| id := Z.of_N (seq (table w)) + 1; title := newTitle; status := st |} in
  (addTask newTitle newStatus w).1 = Returned (Some (created newStatus)) ∧
  rows (table (addTask newTitle newStatus w).2) = rows (table w) ++ [created newStatus] ∧
  (addTask_default newTitle w).1 = Returned (Some (created ToDo)) ∧
  rows (table (addTask_default newTitle w).2) = rows (table w) ++ [created ToDo] ∧
  (∀ now st, blank newTitle →
     TasksScreen.tasks (submit newTitle now st) = TasksScreen.tasks st).
Proof.
  intros created.
  assert (Hrowid : Z.of_N (N.succ (seq (table w))) = Z.of_N (seq (table w)) + 1)
    by lia.
  assert (Hrun : ∀ st,
             (addTask newTitle st w).1 = Returned (Some (created st)) ∧
             rows (table (addTask newTitle st w).2) = rows (table w) ++ [created st]).
  { intros st. unfold_service. rewrite Hopen. simpl.
    rewrite (engine_returns _ _ Hengine). unfold insertRow. simpl.
    rewrite decide_True by lia. simpl. rewrite Hrowid. done. }
  split; [apply Hrun|]. split; [apply Hrun|].
  split; [apply (Hrun ToDo)|]. split; [apply (Hrun ToDo)|].
  intros now st Hblank. by rewrite submit_blank.
Qed.

Lemma insert_performs_no_validation_witness :
  (addTask [] Completed freshlyOpened).1 =
    Returned (Some {| id := 1; title := []; status := Completed |}) ∧
  rows (table (addTask [] Completed freshlyOpened).2) =
    [ {| id := 1; title := []; status := Completed |} ].
Proof.
  destruct (insert_performs_no_validation freshlyOpened Connection [] Completed
              eq_refl eq_refl) as (Hreturned & Hstored & _).
  split; [exact Hreturned | exact Hstored].
Defined.

(** ** The example scenario *)

(** C8.  From the four initial tasks, [moveTask(2, 'Completed')] leaves
    under 'Completed' the titles "Debug ant trail AI" and "Send out team
    retrospective summary", in that order, and the groups then hold 2, 0
    and 2 tasks.  The same scenario played on the adapter (seed a new
    database, [updateTaskStatus(2, 'Completed')]) gives the same list from
    [getTasksByStatus('Completed')] and the counts 2, 0, 2 from
    [getTaskCountByStatus]. *)
Theorem example_scenario :
  let st := TasksScreen.moveTask 2 Completed TasksScreen.initialScreen in
  let grouped := TasksScreen.groupedTasks (TasksScreen.tasks st) in
  let seeded := (seedInitialDataIfNeeded freshlyOpened).2 in
  let mirrored := (updateTaskStatus 2 Completed seeded).2 in
  (∃ finished : list Task,
     grouped !! Completed = Some finished ∧
     title <$> finished =
       [ Js.lit "Debug ant trail AI"; Js.lit "Send out team retrospective summary" ] ∧
     id <$> finished = [2; 3]) ∧
  (length <$> grouped : gmap TaskStatus nat) =
    {[ ToDo := 2%nat; InProgress := 0%nat; Completed := 2%nat ]} ∧
  rows (table seeded) = TasksScreen.initialTasks ∧
  (getTasksByStatus Completed mirrored).1 =
    Returned [ {| id := 2; title := Js.lit "Debug ant trail AI"; status := Completed |};
               {| id := 3; title := Js.lit "Send out team retrospective summary";
                  status := Completed |} ] ∧
  (getTaskCountByStatus mirrored).1 =
    Returned {[ ToDo := 2; InProgress := 0; Completed := 2 ]}.
Proof.
  cbv zeta. split; [|split; [|split; [|split]]].
  - rewrite groupedTasks_lookup. eexists. split; [reflexivity|]. by split.
  - apply map_eq. intros column. rewrite lookup_fmap, groupedTasks_lookup.
    by destruct column.
  - reflexivity.
  - reflexivity.
  - reflexivity.
Qed.

End Adapter.

(* ===================================================================== *)
(** * More on the task screen *)
(* ===================================================================== *)

Section ScreenFurther.
Import TasksScreen Scenario Conditions.

(** ** What [trim] removes *)

Lemma blank_rev s : blank s → blank (rev s).
Proof. apply Forall_rev. Qed.

Lemma trimStart_split s : ∃ p, s = p ++ Js.trimStart s ∧ blank p.
Proof.
  induction s as [|c s (p & Hs & Hp)]; simpl.
  - exists []. split; [done | constructor].
  - destruct (Js.isWhiteSpace c) eqn:Hc.
    + exists (c :: p). split; [simpl; by f_equal | by constructor].
    + exists []. split; [done | constructor].
Qed.

Lemma trimEnd_split s : ∃ q, s = Js.trimEnd s ++ q ∧ blank q.
Proof.
  unfold Js.trimEnd. destruct (trimStart_split (rev s)) as (p & Hs & Hp).
  exists (rev p). split; [|by apply blank_rev].
  rewrite <- rev_app_distr, <- Hs. by rewrite rev_involutive.
Qed.

Lemma last_rev {A} (l : list A) : last (rev l) = head l.
Proof. destruct l as [|x l]; [done|]. simpl. apply last_snoc. Qed.

Lemma head_rev {A} (l : list A) : head (rev l) = last l.
Proof. rewrite <- (rev_involutive l) at 2. by rewrite last_rev. Qed.

Lemma trimStart_head_ok s c :
  head (Js.trimStart s) = Some c → Js.isWhiteSpace c = false.
Proof.
  destruct (Js.trimStart s) as [|d rest] eqn:E; [done|].
  intros [= ->]. by apply trimStart_head in E.
Qed.

(** [trimEnd] keeps the first character of a string it does not empty. *)
Lemma trimEnd_head s c :
  head (Js.trimEnd s) = Some c → head s = Some c.
Proof.
  destruct (trimEnd_split s) as (q & Hs & _). intros H. rewrite Hs.
  rewrite head_app. destruct (Js.trimEnd s); [done|]. done.
Qed.

Lemma trim_not_blank s : ¬ blank s → trimmed (Js.trim s).
Proof.
  intros Hs. split; [|split].
  - intros H. apply Hs. by apply trim_nil.
  - intros c Hc. unfold Js.trim in Hc.
    apply trimEnd_head in Hc. by apply trimStart_head_ok in Hc.
  - intros c. unfold Js.trim, Js.trimEnd. rewrite last_rev.
    apply trimStart_head_ok.
Qed.

Lemma trimStart_id s :
  (∀ c, head s = Some c → Js.isWhiteSpace c = false) → Js.trimStart s = s.
Proof.
  destruct s as [|c s]; [done|]. intros H. simpl. by rewrite (H c eq_refl).
Qed.

Lemma trim_id s : trimmed s → Js.trim s = s.
Proof.
  intros (_ & Hhead & Hlast). unfold Js.trim, Js.trimEnd.
  rewrite (trimStart_id s Hhead).
  rewrite trimStart_id; [apply rev_involutive|].
  intros c. rewrite head_rev. apply Hlast.
Qed.

(** [trim] removes a run of white space at the start and one at the end
    and nothing else; what is left is empty or neither starts nor ends
    with white space; and trimming again changes nothing. *)
Lemma trim_removes_only_surrounding_space (text : Js.str) :
  (∃ before after,
     text = before ++ Js.trim text ++ after ∧ blank before ∧ blank after) ∧
  (Js.trim text = [] ∨ trimmed (Js.trim text)) ∧
  Js.trim (Js.trim text) = Js.trim text.
Proof.
  assert (Hcases : Js.trim text = [] ∨ trimmed (Js.trim text)).
  { destruct (Js.trim text) as [|c rest] eqn:E; [by left | right].
    rewrite <- E. apply trim_not_blank. intros Hb.
    apply trim_blank in Hb. congruence. }
  split; [|split; [done|]].
  - destruct (trimStart_split text) as (p & Hp & Hbp).
    destruct (trimEnd_split (Js.trimStart text)) as (q & Hq & Hbq).
    exists p, q. unfold Js.trim. by rewrite <- Hq.
  - destruct Hcases as [-> | H]; [done | by apply trim_id].
Qed.

(** ** Adding *)

Lemma addTask_clears st now :
  Js.truthy (Js.trim (newTaskTitle st)) = true → newTaskTitle (addTask now st) = [].
Proof. intros H. unfold addTask. by rewrite H. Qed.

(** X1.  The task [addTask] appends for a text that is not blank carries
    that text without the white space around it: the text is the stored
    title with a run of white space before and after, and the stored
    title is not empty and neither starts nor ends with white space. *)
Theorem added_title_is_text_without_margins
    (text : Js.str) (now : Z) (st : Screen) (Htext : ¬ blank text) :
  ∃ before after newTask,
    tasks (submit text now st) = tasks st ++ [newTask] ∧
    text = before ++ title newTask ++ after ∧
    blank before ∧ blank after ∧
    trimmed (title newTask).
Proof.
  destruct (trim_removes_only_surrounding_space text)
    as ((before & after & Htext' & Hb & Ha) & _ & _).
  exists before, after. eexists. rewrite (submit_valid _ _ _ Htext). simpl.
  split; [reflexivity|]. simpl. repeat split; try done; by apply trim_not_blank.
Qed.

Lemma added_title_is_text_without_margins_witness :
  ∃ before after,
    wateringTitle = before ++ Js.lit "Water the ferns" ++ after ∧
    blank before ∧ blank after.
Proof.
  destruct (added_title_is_text_without_margins wateringTitle aClockReading
              initialScreen) as (before & after & newTask & Htasks & Htext & Hb & Ha & _).
  { intros Hb. apply truthy_trim_false in Hb. by vm_compute in Hb. }
  exists before, after. split; [|done].
  rewrite Htext. f_equal. f_equal.
  apply app_inj_tail in Htasks. by destruct Htasks as [_ <-].
Defined.

(** X2.  Pressing the add button a second time without typing in between
    adds nothing: a successful add empties the input field, and an empty
    field is rejected. *)
Theorem addTask_twice (now later : Z) (st : Screen) :
  addTask later (addTask now st) = addTask now st.
Proof.
  unfold addTask.
  destruct (Js.truthy (Js.trim (newTaskTitle st))) eqn:E; simpl; [done|].
  by rewrite E.
Qed.

(** The pairs a task is recognised by. *)
Lemma step_keeps_tasks (st : Screen) (a : Action) :
  ∃ added, (λ t, (id t, title t)) <$> tasks (step st a)
           = ((λ t, (id t, title t)) <$> tasks st) ++ added.
Proof.
  assert (Hmove : ∀ i s (ts : list Task),
    (λ t, (id t, title t)) <$>
      ((λ task, if decide (id task = i) then withStatus task s else task) <$> ts)
    = (λ t, (id t, title t)) <$> ts).
  { intros i s ts. rewrite <- list_fmap_compose. apply list_fmap_ext.
    intros k t _. simpl. by destruct (decide (id t = i)). }
  destruct a as [text | now | taskId | task dx | taskId newStatus]; simpl.
  - exists []. by rewrite app_nil_r.
  - unfold addTask. destruct (Js.truthy _).
    + simpl. rewrite fmap_app. by eexists.
    + exists []. by rewrite app_nil_r.
  - exists []. rewrite app_nil_r. apply Hmove.
  - exists []. rewrite app_nil_r. unfold onPanResponderRelease.
    destruct (releaseCommand task dx) as [[i [s|]]|]; simpl; [apply Hmove | done..].
  - exists []. rewrite app_nil_r. apply Hmove.
Qed.

(** X3.  No sequence of actions on the screen removes a task, changes an
    id or a title, or reorders tasks: the (id, title) pairs of the tasks
    at the start are a prefix of those at the end. *)
Theorem run_never_removes (acts : list Action) (st : Screen) :
  ((λ t, (id t, title t)) <$> tasks st)
    `prefix_of` ((λ t, (id t, title t)) <$> tasks (run acts st)) ∧
  (length (tasks st) ≤ length (tasks (run acts st)))%nat.
Proof.
  assert (Hprefix : ((λ t, (id t, title t)) <$> tasks st)
    `prefix_of` ((λ t, (id t, title t)) <$> tasks (run acts st))).
  { revert st. induction acts as [|a acts IH]; intros st; [done|].
    unfold run. simpl. etrans; [|apply IH].
    destruct (step_keeps_tasks st a) as [added ->]. by apply prefix_app_r. }
  split; [done|].
  apply prefix_length in Hprefix. by rewrite !length_fmap in Hprefix.
Qed.

(** X4.  Along any sequence of actions from a screen whose titles are
    all non-empty and free of surrounding white space (the initial screen
    is one), every title stays so: the screen never holds a task with a
    blank or untrimmed title. *)
Theorem titles_stay_trimmed (acts : list Action) (st : Screen)
    (Hstart : Forall (λ t, trimmed (title t)) (tasks st)) :
  Forall (λ t, trimmed (title t)) (tasks (run acts st)).
Proof.
  revert st Hstart. induction acts as [|a acts IH]; intros st Hstart; [done|].
  unfold run. simpl. apply IH.
  assert (Hmove : ∀ i s,
    Forall (λ t, trimmed (title t))
      ((λ task, if decide (id task = i) then withStatus task s else task) <$> tasks st)).
  { intros i s. apply Forall_fmap. eapply Forall_impl; [exact Hstart|].
    intros t Ht. simpl. by destruct (decide (id t = i)). }
  destruct a as [text | now | taskId | task dx | taskId newStatus]; simpl.
  - done.
  - unfold addTask. destruct (Js.truthy _) eqn:E; [|done].
    simpl. apply Forall_app. split; [done|].
    constructor; [|constructor]. simpl.
    apply trim_not_blank. by apply truthy_trim_true.
  - apply Hmove.
  - unfold onPanResponderRelease.
    destruct (releaseCommand task dx) as [[i [s|]]|]; simpl; [apply Hmove | done..].
  - apply Hmove.
Qed.

Lemma titles_stay_trimmed_witness :
  Forall (λ t, trimmed (title t))
    (tasks (run [TypeTitle wateringTitle; PressAdd aClockReading;
                 Drop antTrailCard 80%Q] initialScreen)).
Proof.
  apply titles_stay_trimmed.
  repeat constructor; simpl; try done; intros c [= <-]; reflexivity.
Defined.

(** ** Moving *)

Lemma moveTask_lookup (i : Z) (s : TaskStatus) (st : Screen) (k : nat) :
  tasks (moveTask i s st) !! k =
    (λ t, if decide (id t = i) then withStatus t s else t) <$> tasks st !! k.
Proof. unfold moveTask. simpl. apply list_lookup_fmap. Qed.

(** X5.  Status changes compose as assignments do: a second [moveTask]
    on the same id overrides the first, and calls on different ids can be
    swapped. *)
Theorem moveTask_composes (i j : Z) (s1 s2 : TaskStatus) (st : Screen) :
  moveTask i s2 (moveTask i s1 st) = moveTask i s2 st ∧
  (i ≠ j → moveTask i s1 (moveTask j s2 st) = moveTask j s2 (moveTask i s1 st)).
Proof.
  unfold moveTask, setTasks. simpl. split.
  - f_equal. rewrite <- list_fmap_compose. apply list_fmap_ext.
    intros k t _. simpl. destruct (decide (id t = i)) as [Hi|Hi]; simpl.
    + by rewrite decide_True.
    + by rewrite decide_False.
  - intros Hij. f_equal. rewrite <- !list_fmap_compose. apply list_fmap_ext.
    intros k t _. simpl.
    destruct (decide (id t = i)) as [Hi|Hi], (decide (id t = j)) as [Hj|Hj];
      simpl; repeat case_decide; simpl in *; congruence.
Qed.

Lemma moveTask_composes_witness :
  moveTask 2 Completed (moveTask 4 InProgress initialScreen)
    = moveTask 4 InProgress (moveTask 2 Completed initialScreen).
Proof. symmetry. by apply (moveTask_composes 4 2 InProgress Completed). Defined.

(** The status one index away that a release can name. *)
Lemma releaseCommand_adjacent (task : Task) (dx : Q) (i : Z) (s : TaskStatus) :
  releaseCommand task dx = Some (i, Some s) →
  i = id task ∧
  (Js.indexOf COLUMNS s = Js.indexOf COLUMNS (status task) + 1 ∨
   Js.indexOf COLUMNS s = Js.indexOf COLUMNS (status task) - 1).
Proof.
  unfold releaseCommand, newIndex.
  destruct (status task), (Js.Qltb 50%Q (Qabs dx)), (Js.Qltb 50%Q dx),
    (Js.Qltb dx (-50)%Q); simpl; intros [= <- <-] || discriminate; auto.
Qed.

Lemma release_clamped_aux (task : Task) (dx : Q) (i : Z) :
  releaseCommand task dx = Some (i, None) → False.
Proof.
  unfold releaseCommand, newIndex.
  destruct (status task), (Js.Qltb 50%Q (Qabs dx)), (Js.Qltb 50%Q dx),
    (Js.Qltb dx (-50)%Q); simpl; discriminate.
Qed.

(** X6.  Whatever the card and the displacement, a release completes; it
    clears the dragged card, leaves the input field, the ids, the titles
    and the order of the tasks alone, leaves every task with another id
    untouched, and either changes no status or gives the tasks with the
    card's id the status next to the card's. *)
Theorem release_frame (task : Task) (dx : Q) (st : Screen) :
  ∃ st',
    onPanResponderRelease task dx st = Some st' ∧
    draggedTask st' = None ∧
    newTaskTitle st' = newTaskTitle st ∧
    id <$> tasks st' = id <$> tasks st ∧
    title <$> tasks st' = title <$> tasks st ∧
    (∀ k t, tasks st !! k = Some t → id t ≠ id task → tasks st' !! k = Some t) ∧
    (tasks st' = tasks st ∨
     ∃ s, tasks st' = tasks (moveTask (id task) s st) ∧
          (Js.indexOf COLUMNS s = Js.indexOf COLUMNS (status task) + 1 ∨
           Js.indexOf COLUMNS s = Js.indexOf COLUMNS (status task) - 1)).
Proof.
  unfold onPanResponderRelease.
  destruct (releaseCommand task dx) as [[i [s|]]|] eqn:E.
  - destruct (releaseCommand_adjacent _ _ _ _ E) as [-> Hadj].
    eexists. split; [reflexivity|]. simpl.
    split; [done|]. split; [done|].
    split; [|split; [|split]].
    + rewrite <- list_fmap_compose. apply list_fmap_ext.
      intros k t _. simpl. by destruct (decide (id t = id task)).
    + rewrite <- list_fmap_compose. apply list_fmap_ext.
      intros k t _. simpl. by destruct (decide (id t = id task)).
    + intros k t Hk Hne. rewrite list_lookup_fmap, Hk. simpl.
      by rewrite decide_False.
    + right. by exists s.
  - destruct (release_clamped_aux task dx i E).
  - eexists. split; [reflexivity|]. simpl. repeat split; auto.
Qed.

Lemma release_right (task : Task) (dx : Q) :
  (50 < dx)%Q → status task ≠ Completed →
  ∃ next, releaseCommand task dx = Some (id task, Some next)
          ∧ next ≠ status task
          ∧ ∀ t dx', (dx' < -50)%Q → id t = id task → status t = next →
              releaseCommand t dx' = Some (id task, Some (status task)).
Proof.
  intros H Hs.
  assert (Hback : ∀ dx', (dx' < -50)%Q →
            Js.Qltb 50%Q (Qabs dx') = true ∧ Js.Qltb 50%Q dx' = false
            ∧ Js.Qltb dx' (-50)%Q = true).
  { intros dx' H'. split; [|split].
    - by apply Qltb_true, beyond_left.
    - by apply left_not_right.
    - by apply Qltb_true. }
  unfold releaseCommand, newIndex.
  rewrite (proj2 (Qltb_true _ _) (beyond_right dx H)), (proj2 (Qltb_true _ _) H).
  destruct (status task) eqn:E; [exists InProgress | exists Completed | done];
    (split; [done|]); (split; [done|]); intros t dx' H' Hid Ht;
    destruct (Hback dx' H') as (-> & -> & ->); rewrite Ht, Hid; done.
Qed.

Lemma same_id_same_task (ts : list Task) (t t' : Task) :
  NoDup (id <$> ts) → t ∈ ts → t' ∈ ts → id t = id t' → t = t'.
Proof.
  induction ts as [|x ts IH]; simpl; [by intros _ ?%elem_of_nil|].
  rewrite NoDup_cons. intros [Hx Hts] Ht Ht' Hid.
  apply elem_of_cons in Ht as [-> | Ht]; apply elem_of_cons in Ht' as [-> | Ht'].
  - done.
  - destruct Hx. rewrite Hid. by apply list_elem_of_fmap_2.
  - destruct Hx. rewrite <- Hid. by apply list_elem_of_fmap_2.
  - by apply IH.
Qed.

(** X7.  With pairwise different ids, dropping a card one column to the
    right and then dropping the moved card one column to the left puts
    the task list back exactly as it was. *)
Theorem drag_right_then_left_restores
    (task : Task) (dxRight dxLeft : Q) (st : Screen)
    (Hids : NoDup (id <$> tasks st)) (Hcard : task ∈ tasks st)
    (Hroom : status task ≠ Completed)
    (Hright : (50 < dxRight)%Q) (Hleft : (dxLeft < -50)%Q) :
  ∃ st1 moved st2,
    onPanResponderRelease task dxRight st = Some st1 ∧
    moved ∈ tasks st1 ∧ id moved = id task ∧ status moved ≠ status task ∧
    onPanResponderRelease moved dxLeft st1 = Some st2 ∧
    tasks st2 = tasks st.
Proof.
  destruct (release_right task dxRight Hright Hroom)
    as (next & Hcmd & Hnext & Hback).
  unfold onPanResponderRelease. rewrite Hcmd.
  eexists. exists (withStatus task next). eexists.
  split; [reflexivity|]. split; [|split; [done|split; [done|]]].
  - simpl. apply list_elem_of_fmap. exists task. split; [|done].
    by rewrite decide_True.
  - rewrite (Hback (withStatus task next) dxLeft Hleft eq_refl eq_refl).
    split; [reflexivity|]. simpl.
    rewrite <- list_fmap_compose. rewrite <- (list_fmap_id (tasks st)) at 2.
    apply list_fmap_ext. intros k t Hk. simpl.
    destruct (decide (id t = id task)) as [Hid|Hid]; simpl.
    + rewrite decide_True by done.
      assert (t = task) as ->.
      { eapply same_id_same_task; eauto. by eapply list_elem_of_lookup_2. }
      by destruct task.
    + by rewrite decide_False.
Qed.

Lemma drag_right_then_left_restores_witness :
  ∃ st1 moved st2,
    onPanResponderRelease antTrailCard 75%Q initialScreen = Some st1 ∧
    moved ∈ tasks st1 ∧ id moved = 2 ∧ status moved ≠ InProgress ∧
    onPanResponderRelease moved (-75)%Q st1 = Some st2 ∧
    tasks st2 = initialTasks.
Proof.
  apply (drag_right_then_left_restores antTrailCard 75%Q (-75)%Q initialScreen).
  - apply (bool_decide_unpack _). by vm_compute.
  - apply (bool_decide_unpack _). by vm_compute.
  - done.
  - by vm_compute.
  - by vm_compute.
Defined.

(** ** Completing *)

Lemma filter_after_complete (i : Z) (c : TaskStatus) (ts : list Task) :
  c ≠ Completed →
  filter (λ t, status t = c)
    ((λ task, if decide (id task = i) then withStatus task Completed else task) <$> ts)
  = filter (λ t, id t ≠ i) (filter (λ t, status t = c) ts).
Proof.
  intros Hc. induction ts as [|t ts IH]; [done|].
  rewrite fmap_cons, !filter_cons.
  destruct (decide (id t = i)) as [Hi|Hi]; simpl.
  - rewrite decide_False by done.
    destruct (decide (status t = c)); [|done].
    rewrite filter_cons, decide_False by tauto. done.
  - destruct (decide (status t = c)); [|done].
    rewrite filter_cons, decide_True by done. by rewrite IH.
Qed.

Lemma filter_completed_after_complete (i : Z) (ts : list Task) :
  filter (λ t, status t = Completed)
    ((λ task, if decide (id task = i) then withStatus task Completed else task) <$> ts)
  = (λ t, withStatus t Completed)
      <$> filter (λ t, status t = Completed ∨ id t = i) ts.
Proof.
  induction ts as [|t ts IH]; [done|].
  rewrite fmap_cons, !filter_cons.
  destruct (decide (id t = i)) as [Hi|Hi]; simpl.
  - rewrite decide_True by tauto. rewrite fmap_cons. by rewrite IH.
  - destruct (decide (status t = Completed)) as [Hs|Hs].
    + rewrite decide_True by tauto. rewrite fmap_cons, IH. f_equal.
      destruct t; simpl in *; by subst.
    + rewrite decide_False by tauto. done.
Qed.

(** X8.  Pressing the checkmark of a task takes the tasks with its id out
    of the 'To Do' and 'In Progress' groups, which otherwise stay as they
    were, and the 'Completed' group becomes the tasks that were completed
    or carry that id, in list order; pressing it again changes nothing. *)
Theorem complete_regroups (i : Z) (st : Screen) :
  let before := groupedTasks (tasks st) in
  let after := groupedTasks (tasks (moveTaskToCompleted i st)) in
  after !! ToDo = filter (λ t, id t ≠ i) <$> before !! ToDo ∧
  after !! InProgress = filter (λ t, id t ≠ i) <$> before !! InProgress ∧
  after !! Completed =
    Some ((λ t, withStatus t Completed)
            <$> filter (λ t, status t = Completed ∨ id t = i) (tasks st)) ∧
  moveTaskToCompleted i (moveTaskToCompleted i st) = moveTaskToCompleted i st.
Proof.
  cbv zeta. rewrite !groupedTasks_lookup. unfold moveTaskToCompleted. simpl.
  rewrite !filter_after_complete by done. rewrite filter_completed_after_complete.
  repeat split.
  unfold setTasks. simpl. f_equal.
  rewrite <- list_fmap_compose. apply list_fmap_ext. intros k t _. simpl.
  destruct (decide (id t = i)); simpl; [by rewrite decide_True | by rewrite decide_False].
Qed.

End ScreenFurther.

(* ===================================================================== *)
(** * Properties of the rendered content *)
(* ===================================================================== *)

Section Views.
Import TasksScreen TasksView Scenario.

(** The tasks of one status, as [groupedTasks] lists them. *)
Let inStatus (st : Screen) (c : TaskStatus) : list Task :=
  filter (λ task, status task = c) (tasks st).

Let columnOf (viewMode : ViewMode) (st : Screen) (c : TaskStatus) : ColumnView :=
  {| columnTitle := c;
     taskCount := length (inStatus st c);
     columnCards := (λ task, TaskCard viewMode st task false) <$> inStatus st c;
     emptyColumn := bool_decide (length (inStatus st c) = 0%nat) |}.

Let sectionOf (viewMode : ViewMode) (st : Screen) (c : TaskStatus) : ListSection :=
  {| sectionTitle := c;
     sectionCount := length (inStatus st c);
     sectionCards := (λ task, TaskCard viewMode st task true) <$> inStatus st c |}.

Lemma BoardView_columns viewMode st (cs : list TaskStatus) :
  mapM (Column viewMode st) cs = Some (columnOf viewMode st <$> cs).
Proof.
  apply mapM_Some. induction cs as [|c cs IH]; simpl; constructor; [|done].
  unfold Column. by rewrite groupedTasks_lookup.
Qed.

Lemma cards_tasks viewMode st (button : bool) (ts : list Task) :
  cardTask <$> ((λ task, TaskCard viewMode st task button) <$> ts) = ts.
Proof.
  rewrite <- list_fmap_compose. rewrite <- (list_fmap_id ts) at 2.
  by apply list_fmap_ext.
Qed.

(** X9.  The board view always renders, with exactly the three columns
    'To Do', 'In Progress', 'Completed' in this order, empty ones
    included.  A column's counter is the number of its cards, its
    placeholder shows exactly when it has no card, its cards are the tasks
    of its status in list order, none of them has a checkmark button, and
    the three columns together show every task exactly once. *)
Theorem BoardView_shows_all (viewMode : ViewMode) (st : Screen) :
  ∃ columns,
    BoardView viewMode st = Some columns ∧
    columnTitle <$> columns = [ToDo; InProgress; Completed] ∧
    Forall (λ c,
              taskCount c = length (columnCards c) ∧
              (emptyColumn c = true ↔ columnCards c = []) ∧
              cardTask <$> columnCards c
                = filter (λ t, status t = columnTitle c) (tasks st) ∧
              Forall (λ card, completeButton card = false) (columnCards c))
           columns ∧
    shownTasks (BoardContent columns) ≡ₚ tasks st.
Proof.
  exists (columnOf viewMode st <$> COLUMNS). unfold BoardView.
  rewrite BoardView_columns. split; [done|]. split; [done|]. split.
  - apply Forall_fmap, Forall_forall. intros c _. simpl.
    rewrite length_fmap, cards_tasks. repeat split.
    + intros H%bool_decide_eq_true. apply nil_length_inv in H.
      fold (inStatus st c). by rewrite H.
    + intros H%fmap_nil_inv. fold (inStatus st c) in H.
      apply bool_decide_eq_true. by rewrite H.
    + apply Forall_fmap, Forall_forall. by intros t _.
  - unfold COLUMNS. simpl. rewrite !cards_tasks, app_nil_r.
    apply filter_by_status_complete.
Qed.

Lemma ListView_children viewMode st (cs : list TaskStatus) :
  mapM (listSection viewMode st) cs
  = Some ((λ c, if decide (length (inStatus st c) = 0%nat) then None
                else Some (sectionOf viewMode st c)) <$> cs).
Proof.
  apply mapM_Some. induction cs as [|c cs IH]; simpl; constructor; [|done].
  unfold listSection. rewrite groupedTasks_lookup. fold (inStatus st c).
  by destruct (decide _).
Qed.

Lemma no_task_in_status st c :
  length (inStatus st c) = 0%nat ↔ ¬ Exists (λ t, status t = c) (tasks st).
Proof.
  unfold inStatus. rewrite Exists_exists. split.
  - intros H%nil_length_inv (t & Ht & Hs).
    exact (filter_nil_not_elem_of _ _ _ H Hs Ht).
  - intros H. destruct (filter _ _) as [|t ts] eqn:E; [done|].
    destruct H. exists t.
    assert (Ht : t ∈ filter (λ t, status t = c) (tasks st)) by (rewrite E; left).
    apply list_elem_of_filter in Ht as [Hs Hin]. eauto.
Qed.

Lemma ListView_sections viewMode st (cs : list TaskStatus) :
  omap (λ child, child)
    ((λ c, if decide (length (inStatus st c) = 0%nat) then None
           else Some (sectionOf viewMode st c)) <$> cs)
  = sectionOf viewMode st
      <$> filter (λ c, Exists (λ t, status t = c) (tasks st)) cs.
Proof.
  induction cs as [|c cs IH]; [done|].
  rewrite fmap_cons, filter_cons. simpl.
  destruct (decide (length (inStatus st c) = 0%nat)) as [H|H].
  - rewrite decide_False by (by apply no_task_in_status). apply IH.
  - rewrite decide_True.
    + rewrite fmap_cons. by f_equal.
    + destruct (decide (Exists (λ t, status t = c) (tasks st))) as [|Hn]; [done|].
      by apply no_task_in_status in Hn.
Qed.

Lemma skipped_columns_hold_nothing st (cs : list TaskStatus) :
  filter (λ c, Exists (λ t, status t = c) (tasks st)) cs ≫= inStatus st
  = cs ≫= inStatus st.
Proof.
  induction cs as [|c cs IH]; [done|].
  rewrite filter_cons. destruct (decide _) as [H|H].
  - rewrite !bind_cons. by rewrite IH.
  - rewrite bind_cons, IH. apply no_task_in_status in H.
    apply nil_length_inv in H. by rewrite H.
Qed.

(** X10.  The list view always renders: one section for each status that
    has a task, in the order 'To Do', 'In Progress', 'Completed', and none
    for a status without tasks.  No section is empty, a section's counter
    is the number of its cards, its cards are the tasks of its status in
    list order, and the list view shows the same tasks in the same order
    as the board view, every task exactly once. *)
Theorem ListView_shows_all (viewMode : ViewMode) (st : Screen) :
  ∃ sections columns,
    ListView viewMode st = Some sections ∧
    BoardView viewMode st = Some columns ∧
    sectionTitle <$> sections
      = filter (λ c, Exists (λ t, status t = c) (tasks st)) COLUMNS ∧
    Forall (λ s,
              sectionCards s ≠ [] ∧
              sectionCount s = length (sectionCards s) ∧
              cardTask <$> sectionCards s
                = filter (λ t, status t = sectionTitle s) (tasks st))
           sections ∧
    shownTasks (ListContent sections) = shownTasks (BoardContent columns) ∧
    shownTasks (ListContent sections) ≡ₚ tasks st.
Proof.
  exists (sectionOf viewMode st
            <$> filter (λ c, Exists (λ t, status t = c) (tasks st)) COLUMNS),
         (columnOf viewMode st <$> COLUMNS).
  assert (Hshown :
    shownTasks (ListContent (sectionOf viewMode st
       <$> filter (λ c, Exists (λ t, status t = c) (tasks st)) COLUMNS))
    = COLUMNS ≫= inStatus st).
  { rewrite <- skipped_columns_hold_nothing. unfold shownTasks.
    generalize (filter (λ c, Exists (λ t, status t = c) (tasks st)) COLUMNS).
    intros cs. induction cs as [|c cs IH]; [done|].
    rewrite fmap_cons, !bind_cons, IH. simpl. by rewrite cards_tasks. }
  unfold ListView, BoardView.
  rewrite ListView_children, ListView_sections, BoardView_columns.
  split; [done|]. split; [done|]. split; [|split; [|split]].
  - rewrite <- list_fmap_compose. rewrite <- list_fmap_id. by apply list_fmap_ext.
  - apply Forall_fmap, Forall_forall. intros c Hc. simpl.
    apply list_elem_of_filter in Hc as [Hc _].
    rewrite length_fmap, cards_tasks. repeat split.
    intros H%fmap_nil_inv. fold (inStatus st c) in H.
    assert (Hlen : length (inStatus st c) = 0%nat) by (by rewrite H).
    by apply no_task_in_status in Hlen.
  - rewrite Hshown. unfold COLUMNS. simpl. by rewrite !cards_tasks.
  - rewrite Hshown. unfold COLUMNS, inStatus. simpl. rewrite app_nil_r.
    apply filter_by_status_complete.
Qed.

(** X11.  In the list view a card has the checkmark button exactly when
    its task is not completed; and once the button of a card is pressed,
    every card of that task's id sits in the 'Completed' section and has
    no button any more. *)
Theorem complete_button_goes_away
    (st : Screen) (sections : list ListSection) (s : ListSection) (card : Card)
    (Hview : ListView ListMode st = Some sections)
    (Hs : s ∈ sections) (Hcard : card ∈ sectionCards s) :
  (completeButton card = true ↔ status (cardTask card) ≠ Completed) ∧
  panHandlers card = false ∧
  ∃ sections',
    ListView ListMode (pressComplete card st) = Some sections' ∧
    (∃ s' card', s' ∈ sections' ∧ card' ∈ sectionCards s'
                 ∧ id (cardTask card') = id (cardTask card)) ∧
    ∀ s' card', s' ∈ sections' → card' ∈ sectionCards s' →
      id (cardTask card') = id (cardTask card) →
      sectionTitle s' = Completed ∧ completeButton card' = false.
Proof.
  destruct (ListView_shows_all ListMode st) as (sections0 & _ & Hview0 & _).
  revert Hview Hview0. unfold ListView.
  rewrite ListView_children, ListView_sections. intros [= <-] _.
  apply list_elem_of_fmap in Hs as (c & -> & Hc). simpl in Hcard.
  apply list_elem_of_fmap in Hcard as (t & -> & Ht).
  split; [|split; [done|]].
  { simpl. rewrite bool_decide_eq_true. done. }
  set (st' := pressComplete (TaskCard ListMode st t true) st).
  exists (sectionOf ListMode st'
            <$> filter (λ c, Exists (λ t, status t = c) (tasks st')) COLUMNS).
  rewrite ListView_children, ListView_sections. split; [done|].
  assert (Hin : t ∈ tasks st).
  { unfold inStatus in Ht. by apply list_elem_of_filter in Ht as [_ ?]. }
  assert (Hmoved : withStatus t Completed ∈ tasks st').
  { unfold st', pressComplete, moveTaskToCompleted. simpl.
    apply list_elem_of_fmap. exists t. split; [|done]. by rewrite decide_True. }
  assert (Hall : ∀ t', t' ∈ tasks st' → id t' = id t → status t' = Completed).
  { unfold st', pressComplete, moveTaskToCompleted. simpl.
    intros t' (t0 & -> & Ht0)%list_elem_of_fmap Hid.
    destruct (decide (id t0 = id t)) as [|Hne]; [done|]. by destruct Hne. }
  split.
  - exists (sectionOf ListMode st' Completed),
           (TaskCard ListMode st' (withStatus t Completed) true).
    split; [|split; [|done]].
    + apply list_elem_of_fmap. exists Completed. split; [done|].
      apply list_elem_of_filter. split; [|unfold COLUMNS; by repeat constructor].
      apply Exists_exists. by exists (withStatus t Completed).
    + simpl. apply list_elem_of_fmap. exists (withStatus t Completed).
      split; [done|]. unfold inStatus. by apply list_elem_of_filter.
  - intros s' card' (c' & -> & Hc')%list_elem_of_fmap Hcard' Hid. simpl in *.
    apply list_elem_of_fmap in Hcard' as (t' & -> & Ht'). simpl in *.
    unfold inStatus in Ht'. apply list_elem_of_filter in Ht' as [Hst' Hin'].
    pose proof (Hall t' Hin' Hid) as Hdone.
    split; [congruence|]. rewrite Hdone. done.
Qed.

Lemma complete_button_goes_away_witness :
  ∃ sections',
    ListView ListMode
      (pressComplete (TaskCard ListMode initialScreen antTrailCard true) initialScreen)
      = Some sections' ∧
    sectionTitle <$> sections' = [ToDo; Completed].
Proof.
  destruct (complete_button_goes_away initialScreen
              (default [] (ListView ListMode initialScreen))
              {| sectionTitle := InProgress; sectionCount := 1;
                 sectionCards := [TaskCard ListMode initialScreen antTrailCard true] |}
              (TaskCard ListMode initialScreen antTrailCard true))
    as (_ & _ & sections' & Hview & _).
  - reflexivity.
  - vm_compute. right. left.
  - by left.
  - exists sections'. split; [done|].
    assert (Some sections' = ListView ListMode
      (pressComplete (TaskCard ListMode initialScreen antTrailCard true) initialScreen))
      as Heq by done.
    vm_compute in Heq. by injection Heq as ->.
Defined.

(** X26.  While a card is being dragged (after the gesture was granted)
    the board marks exactly the cards whose task has the dragged task's
    id; once the card is released, whatever the displacement, no card is
    marked. *)
Theorem drag_highlight (task : Task) (dx : Q) (st : Screen) :
  (∀ columns c card,
     BoardView BoardMode (onPanResponderGrant task st) = Some columns →
     c ∈ columns → card ∈ columnCards c →
     (draggedCard card = true ↔ id (cardTask card) = id task)) ∧
  (∀ st' columns c card,
     onPanResponderRelease task dx (onPanResponderGrant task st) = Some st' →
     BoardView BoardMode st' = Some columns →
     c ∈ columns → card ∈ columnCards c →
     draggedCard card = false).
Proof.
  unfold BoardView. split.
  - intros columns c card. rewrite BoardView_columns.
    intros Heq. apply (inj Some) in Heq. subst columns.
    intros (s & -> & _)%list_elem_of_fmap. simpl.
    intros (t & -> & _)%list_elem_of_fmap. simpl.
    rewrite bool_decide_eq_true. split; congruence.
  - intros st' columns c card Hrelease. rewrite BoardView_columns.
    intros Heq. apply (inj Some) in Heq. subst columns.
    intros (s & -> & _)%list_elem_of_fmap. simpl.
    intros (t & -> & _)%list_elem_of_fmap. simpl.
    revert Hrelease. unfold onPanResponderRelease.
    destruct (releaseCommand task dx) as [[i [s'|]]|]; [| done |];
      by intros [= <-].
Qed.

Lemma drag_highlight_witness :
  draggedCard (TaskCard BoardMode (onPanResponderGrant antTrailCard initialScreen)
                 antTrailCard false) = true.
Proof.
  destruct (drag_highlight antTrailCard 0%Q initialScreen) as [Hmarked _].
  apply (Hmarked
           (default [] (BoardView BoardMode (onPanResponderGrant antTrailCard initialScreen)))
           {| columnTitle := InProgress; taskCount := 1;
              columnCards := [TaskCard BoardMode
                                (onPanResponderGrant antTrailCard initialScreen)
                                antTrailCard false];
              emptyColumn := false |}).
  - reflexivity.
  - vm_compute. right. left.
  - left.
  - reflexivity.
Defined.

End Views.

(* ===================================================================== *)
(** * More on the persistence adapter *)
(* ===================================================================== *)

Section AdapterFurther.
Import SQLite SQLiteService Scenario Conditions Calls.

Ltac unfold_service :=
  unfold getAllTasks, getTasksByStatus, getTaskCountByStatus, updateTaskStatus,
    deleteTask, clearAllTasks, addTask, closeDatabase, initializeDatabase,
    seedInitialDataIfNeeded,
    getAllAsync_all, getAllAsync_byStatus, getAllAsync_groupCount, runAsync_update,
    runAsync_delete, runAsync_deleteAll, runAsync_insert, closeAsync,
    openDatabaseAsync, execAsync_create, getFirstAsync_count,
    try_catch, bind, this_database, set_this_database, throw, ret.

(** Case analysis on the next engine call of the goal. *)
Ltac engine_cases :=
  match goal with
  | |- context [engine ?f ?w] =>
      destruct (engine_outcome f w) as [[-> _] | [-> _]]; cbn [fst snd]
  end.

(** ** The table invariant *)

Lemma wellFormed_insert ttl s t :
  wellFormed t → wellFormed (insertRow ttl s t).2.
Proof.
  intros [Hsorted Hbound]. unfold insertRow, wellFormed. simpl. split.
  - rewrite fmap_app. apply StronglySorted_app_2; simpl.
    + intros a b (r & -> & Hr)%list_elem_of_fmap ->%list_elem_of_singleton.
      rewrite Forall_forall in Hbound. specialize (Hbound r Hr). lia.
    + done.
    + repeat constructor.
  - apply Forall_app. split.
    + eapply Forall_impl; [exact Hbound|]. simpl. intros; lia.
    + repeat constructor; simpl; lia.
Qed.

Lemma StronglySorted_ids_filter (P : Task → Prop) `{∀ r, Decision (P r)} rs :
  StronglySorted Z.lt (id <$> rs) → StronglySorted Z.lt (id <$> filter P rs).
Proof.
  induction rs as [|r rs IH]; [done|].
  rewrite fmap_cons, StronglySorted_cons. intros [Hr Hrs].
  rewrite filter_cons. destruct (decide (P r)); [|by apply IH].
  rewrite fmap_cons, StronglySorted_cons. split; [|by apply IH].
  rewrite Forall_fmap in *. rewrite Forall_forall in *.
  intros x Hx%list_elem_of_filter. apply Hr. tauto.
Qed.

Lemma wellFormed_update i s t :
  wellFormed t →
  wellFormed {| rows := (λ r, if decide (id r = i) then withStatus r s else r) <$> rows t;
                seq := seq t |}.
Proof.
  intros [Hsorted Hbound]. unfold wellFormed. simpl. split.
  - rewrite <- list_fmap_compose.
    erewrite list_fmap_ext; [exact Hsorted|].
    intros k r _. simpl. by destruct (decide (id r = i)).
  - apply Forall_fmap. eapply Forall_impl; [exact Hbound|].
    intros r Hr. simpl. by destruct (decide (id r = i)).
Qed.

Lemma wellFormed_delete i t :
  wellFormed t →
  wellFormed {| rows := filter (λ r, id r ≠ i) (rows t); seq := seq t |}.
Proof.
  intros [Hsorted Hbound]. unfold wellFormed. simpl. split.
  - by apply StronglySorted_ids_filter.
  - rewrite Forall_forall in *. intros r Hr%list_elem_of_filter. apply Hbound. tauto.
Qed.

Lemma wellFormed_clear t : wellFormed {| rows := []; seq := seq t |}.
Proof. split; constructor. Qed.

Lemma wellFormed_for_of db (l : list (Js.str * TaskStatus)) (w : World) :
  wellFormed (table w) →
  wellFormed (table
    (for_of l (λ task, (let* _ := runAsync_insert db task.1 task.2 in ret ())%js) w).2).
Proof.
  revert w. induction l as [|task l IH]; intros w Hw; simpl; [done|].
  unfold bind at 1 2, runAsync_insert, ret.
  engine_cases; [done|]. apply IH. simpl. by apply wellFormed_insert.
Qed.

Lemma wellFormed_seed w :
  wellFormed (table w) → wellFormed (table (seedInitialDataIfNeeded w).2).
Proof.
  intros Hw. rewrite seed_unfold. unfold getFirstAsync_count.
  destruct (database w) as [db|]; [|done].
  engine_cases; [done|].
  destruct (decide _); [|done]. by apply wellFormed_for_of.
Qed.

Lemma wellFormed_service w (c : Call) :
  match c with RunSeedScript | RunResetScript => False | _ => True end →
  wellFormed (table w) → wellFormed (table (perform w c)).
Proof.
  intros Hc Hw. destruct c; try done; simpl.
  - unfold_service. engine_cases; [done|]. simpl. engine_cases; done.
  - by apply wellFormed_seed.
  - unfold_service. destruct (database w); simpl; [engine_cases|]; done.
  - unfold_service. destruct (database w); simpl; [engine_cases|]; try done.
    destruct (decide _); simpl; by apply wellFormed_insert.
  - unfold_service. destruct (database w); simpl; [engine_cases|]; try done.
    destruct (decide _); simpl; by apply wellFormed_update.
  - unfold_service. destruct (database w); simpl; [engine_cases|]; try done.
    destruct (decide _); simpl; by apply wellFormed_delete.
  - unfold_service. destruct (database w); simpl; [engine_cases|]; done.
  - unfold_service. destruct (database w); simpl; [engine_cases|]; done.
  - unfold_service. destruct (database w); simpl; [engine_cases|]; try done.
    simpl. apply wellFormed_clear.
  - unfold_service. destruct (database w); simpl; [engine_cases|]; done.
Qed.

Lemma keeps_ret {A} P (a : A) : keeps P (ret a).
Proof. by intros w. Qed.

Lemma keeps_bind {A B} P (c : M A) (k : A → M B) :
  keeps P c → (∀ a, keeps P (k a)) → keeps P (bind c k).
Proof.
  intros Hc Hk w Hw. unfold bind. specialize (Hc w Hw).
  destruct (c w) as [[a|e] w']; simpl in *; [by apply Hk | done].
Qed.

Lemma keeps_try_catch {A} P (c : M A) (h : Error → M A) :
  keeps P c → (∀ e, keeps P (h e)) → keeps P (try_catch c h).
Proof.
  intros Hc Hh w Hw. unfold try_catch. specialize (Hc w Hw).
  destruct (c w) as [[a|e] w']; simpl in *; [done | by apply Hh].
Qed.

Lemma keeps_addSeedTasks todo n m : keeps wellFormed (SeedScript.addSeedTasks todo n m).
Proof.
  revert n m. induction todo as [|task todo IH]; intros n m; simpl.
  - apply keeps_ret.
  - apply keeps_bind; [|intros [? ?]; apply IH].
    apply keeps_try_catch; [|intros; apply keeps_ret].
    apply keeps_bind.
    + intros w. apply (wellFormed_service w (CallAdd task.1 task.2) I).
    + intros [?|]; apply keeps_ret.
Qed.

Lemma keeps_seedDatabase_try : keeps wellFormed SeedScript.seedDatabase_try.
Proof.
  unfold SeedScript.seedDatabase_try.
  apply keeps_bind; [intros w; apply (wellFormed_service w CallInitialize I)|]. intros _.
  apply keeps_bind; [intros w; apply (wellFormed_service w CallGetAll I)|]. intros existing.
  apply keeps_bind.
  { apply keeps_try_catch; [|intros; apply keeps_ret].
    intros w; apply (wellFormed_service w CallSeed I). }
  intros _. apply keeps_bind; [apply keeps_addSeedTasks|]. intros counters.
  apply keeps_bind; [intros w; apply (wellFormed_service w CallGetAll I)|]. intros final.
  apply keeps_bind; [intros w; apply (wellFormed_service w CallCount I)|]. intros counts.
  apply keeps_ret.
Qed.

Lemma wellFormed_perform w (c : Call) :
  wellFormed (table w) → wellFormed (table (perform w c)).
Proof.
  intros Hw. destruct c; try (by apply wellFormed_service).
  - simpl. unfold SeedScript.seedDatabase.
    pose proof (keeps_seedDatabase_try w Hw) as H.
    destruct (SeedScript.seedDatabase_try w) as [[report|e] w']; simpl in *; [|done].
    pose proof (keeps_try_catch wellFormed closeDatabase (λ _, ret ())) as Hclose.
    specialize (Hclose (λ w0, wellFormed_service w0 CallClose I)
                       (λ _, keeps_ret _ _) w' H).
    by destruct (try_catch closeDatabase _ w') as [[?|?] w''].
  - simpl. unfold SeedScript.resetDatabase.
    assert (Hbody : keeps wellFormed
              (let* _ := initializeDatabase in clearAllTasks)%js).
    { apply keeps_bind; [intros w0; apply (wellFormed_service w0 CallInitialize I)|].
      intros _ w0. apply (wellFormed_service w0 CallClear I). }
    specialize (Hbody w Hw).
    destruct ((let* _ := initializeDatabase in clearAllTasks)%js w)
      as [[[]|e] w']; simpl in *; try done.
    pose proof (wellFormed_service w' CallClose I Hbody) as Hclose. simpl in Hclose.
    by destruct (closeDatabase w') as [[?|?] w''].
Qed.

Lemma StronglySorted_lt_NoDup (l : list Z) : StronglySorted Z.lt l → NoDup l.
Proof.
  induction 1 as [|x l _ IH Hx]; constructor; [|done].
  intros Hin. rewrite Forall_forall in Hx. specialize (Hx x Hin). lia.
Qed.

(** X12.  Whatever methods of the service are called and whichever runs
    of the script are made, in any order and with any engine call
    failing, a table that starts with positive, strictly ascending ids
    below its sequence counter keeps them so; in particular no two rows
    ever share an id. *)
Theorem ids_stay_unique (calls : list Call) (w : World)
    (Hstart : wellFormed (table w)) :
  wellFormed (table (performAll calls w)) ∧
  NoDup (id <$> rows (table (performAll calls w))).
Proof.
  assert (H : wellFormed (table (performAll calls w))).
  { revert w Hstart. induction calls as [|c calls IH]; intros w Hw; [done|].
    unfold performAll. simpl. apply IH. by apply wellFormed_perform. }
  split; [done|]. destruct H as [H _]. by apply StronglySorted_lt_NoDup.
Qed.

Lemma ids_stay_unique_witness :
  NoDup (id <$> rows (table (performAll
    [CallInitialize; CallSeed; CallAdd [] Completed; CallDelete 2; RunSeedScript]
    {| database := None; table := emptyTable; faults := [false; false; true] |}))).
Proof.
  apply ids_stay_unique. split; constructor.
Defined.

(** ** What the reads return *)

#[local] Instance idLe_transitive : Transitive idLe.
Proof. intros a b c. unfold idLe. lia. Qed.

#[local] Instance idLe_total : Total idLe.
Proof. intros a b. unfold idLe. lia. Qed.

Lemma ascending_ids_sorted (rs : list Task) :
  StronglySorted Z.lt (id <$> rs) → StronglySorted idLe rs.
Proof.
  induction rs as [|r rs IH]; [constructor|].
  rewrite fmap_cons, StronglySorted_cons, Forall_fmap. intros [Hr Hrs].
  constructor; [by apply IH|].
  eapply Forall_impl; [exact Hr|]. intros x Hx. unfold idLe. simpl in Hx. lia.
Qed.

Lemma orderById_ascending (rs : list Task) :
  StronglySorted Z.lt (id <$> rs) → orderById rs = rs.
Proof.
  intros Hrs. unfold orderById.
  apply (StronglySorted_unique_strong idLe).
  - intros x1 x2 H1 H2 H12 H21. rewrite merge_sort_Permutation in H1.
    apply (same_id_same_task rs); [by apply StronglySorted_lt_NoDup|done..|].
    unfold idLe in *. lia.
  - apply StronglySorted_merge_sort; apply _.
  - by apply ascending_ids_sorted.
  - apply merge_sort_Permutation.
Qed.

(** The world after an engine call that returned and left table [t]. *)
Let after (w : World) (t : Table) : World :=
  {| database := database w; table := t; faults := tail (faults w) |}.

Lemma getAllTasks_run w db :
  database w = Some db → nextFault w = false →
  getAllTasks w = (Returned (orderById (rows (table w))), after w (table w)).
Proof.
  intros Hdb Hok. unfold_service. rewrite Hdb. simpl.
  by rewrite (engine_returns _ _ Hok).
Qed.

Lemma getTasksByStatus_run w db c :
  database w = Some db → nextFault w = false →
  getTasksByStatus c w
  = (Returned (orderById (filter (λ r, status r = c) (rows (table w)))),
     after w (table w)).
Proof.
  intros Hdb Hok. unfold_service. rewrite Hdb. simpl.
  by rewrite (engine_returns _ _ Hok).
Qed.

Lemma addTask_run w db ttl s :
  database w = Some db → nextFault w = false →
  addTask ttl s w
  = (Returned (Some {| id := Z.of_N (seq (table w)) + 1; title := ttl; status := s |}),
     after w (insertRow ttl s (table w)).2).
Proof.
  intros Hdb Hok. unfold_service. rewrite Hdb. simpl.
  rewrite (engine_returns _ _ Hok). unfold insertRow. simpl.
  rewrite decide_True by lia.
  replace (Z.of_N (N.succ (seq (table w)))) with (Z.of_N (seq (table w)) + 1) by lia.
  done.
Qed.

Lemma quiet_next w : quiet w → nextFault w = false.
Proof. unfold quiet, nextFault. by intros ->. Qed.

Lemma quiet_after w t : quiet w → quiet (after w t).
Proof. unfold quiet, after. simpl. by intros ->. Qed.

(** X13.  On an open connection whose engine call does not throw,
    [getAllTasks] returns the rows of the table and [getTasksByStatus]
    the rows of the wanted status, each row once, in ascending id order;
    on a table whose ids ascend along the rows that is the table's own
    order.  Neither changes the table. *)
Theorem reads_return_the_rows (w : World) (wanted : TaskStatus)
    (Hready : ready w) (Hengine : nextFault w = false) :
  ∃ everything some,
    (getAllTasks w).1 = Returned everything ∧
    (getTasksByStatus wanted w).1 = Returned some ∧
    everything ≡ₚ rows (table w) ∧
    some ≡ₚ filter (λ r, status r = wanted) (rows (table w)) ∧
    StronglySorted idLe everything ∧ StronglySorted idLe some ∧
    (wellFormed (table w) →
       everything = rows (table w) ∧
       some = filter (λ r, status r = wanted) everything) ∧
    table (getAllTasks w).2 = table w ∧
    table (getTasksByStatus wanted w).2 = table w.
Proof.
  destruct Hready as [db Hdb].
  rewrite (getAllTasks_run w db Hdb Hengine).
  rewrite (getTasksByStatus_run w db wanted Hdb Hengine). simpl.
  eexists _, _. split; [reflexivity|]. split; [reflexivity|].
  split; [apply merge_sort_Permutation|]. split; [apply merge_sort_Permutation|].
  split; [apply StronglySorted_merge_sort; apply _|].
  split; [apply StronglySorted_merge_sort; apply _|].
  split; [|done]. intros [Hsorted _].
  rewrite (orderById_ascending _ Hsorted). split; [done|].
  apply orderById_ascending. by apply StronglySorted_ids_filter.
Qed.

Lemma reads_return_the_rows_witness :
  (getAllTasks (seedInitialDataIfNeeded freshlyOpened).2).1
    = Returned TasksScreen.initialTasks.
Proof.
  destruct (reads_return_the_rows (seedInitialDataIfNeeded freshlyOpened).2 ToDo)
    as (everything & some & -> & _ & _ & _ & _ & _ & Hwf & _).
  - by exists Connection.
  - reflexivity.
  - destruct Hwf as [-> _]; [|reflexivity].
    apply wellFormed_seed. split; constructor.
Defined.

(** X14.  A task added on an open connection with a quiet engine and a
    well-formed table gets an id above every id in the table and is read
    back: [getAllTasks] returns the old rows followed by the new task, and
    [getTasksByStatus] for its status returns the old rows of that status
    followed by it. *)
Theorem added_task_is_read_back (w : World) (newTitle : Js.str) (newStatus : TaskStatus)
    (Hready : ready w) (Hquiet : quiet w) (Hwf : wellFormed (table w)) :
  ∃ created w1,
    addTask newTitle newStatus w = (Returned (Some created), w1) ∧
    title created = newTitle ∧ status created = newStatus ∧
    (∀ r, r ∈ rows (table w) → id r < id created) ∧
    (getAllTasks w1).1 = Returned (rows (table w) ++ [created]) ∧
    (getTasksByStatus newStatus w1).1
      = Returned (filter (λ r, status r = newStatus) (rows (table w)) ++ [created]).
Proof.
  destruct Hready as [db Hdb].
  rewrite (addTask_run w db _ _ Hdb (quiet_next w Hquiet)).
  exists {| id := Z.of_N (seq (table w)) + 1; title := newTitle; status := newStatus |},
         (after w (insertRow newTitle newStatus (table w)).2).
  split; [reflexivity|]. split; [reflexivity|]. split; [reflexivity|].
  pose proof (wellFormed_insert newTitle newStatus _ Hwf) as [Hsorted' _].
  destruct Hwf as [Hsorted Hbound].
  split.
  { intros r Hr. rewrite Forall_forall in Hbound. specialize (Hbound r Hr).
    simpl. lia. }
  pose proof (quiet_next _ (quiet_after w (insertRow newTitle newStatus (table w)).2 Hquiet))
    as Hnext.
  rewrite (getAllTasks_run (after w (insertRow newTitle newStatus (table w)).2)
             db Hdb Hnext).
  rewrite (getTasksByStatus_run (after w (insertRow newTitle newStatus (table w)).2)
             db newStatus Hdb Hnext).
  simpl in *. rewrite (orderById_ascending _ Hsorted').
  assert (Hid : Z.of_N (N.succ (seq (table w))) = Z.of_N (seq (table w)) + 1) by lia.
  rewrite Hid in *. split; [done|].
  rewrite orderById_ascending by (by apply StronglySorted_ids_filter).
  rewrite filter_app. f_equal. f_equal.
  rewrite filter_cons, decide_True by done. done.
Qed.

Lemma added_task_is_read_back_witness :
  ∃ created w1,
    addTask [] InProgress (seedInitialDataIfNeeded freshlyOpened).2
      = (Returned (Some created), w1) ∧
    id created = 5 ∧
    (getAllTasks w1).1 = Returned (TasksScreen.initialTasks ++ [created]).
Proof.
  destruct (added_task_is_read_back (seedInitialDataIfNeeded freshlyOpened).2
              [] InProgress)
    as (created & w1 & Hadd & _ & _ & _ & Hall & _).
  - by exists Connection.
  - reflexivity.
  - apply wellFormed_seed. split; constructor.
  - exists created, w1. split; [done|]. split; [|done].
    vm_compute in Hadd. by injection Hadd as <- _.
Defined.

(** ** Updating and deleting *)

Lemma changes_positive (i : Z) (rs : list Task) :
  0 < Z.of_nat (length (filter (λ r, id r = i) rs)) ↔ i ∈ id <$> rs.
Proof.
  rewrite list_elem_of_fmap. split.
  - destruct (filter _ rs) as [|r rest] eqn:E; [simpl; lia|]. intros _.
    assert (Hr : r ∈ filter (λ r, id r = i) rs) by (rewrite E; left).
    apply list_elem_of_filter in Hr as [Hid Hr]. by exists r.
  - intros (r & -> & Hr).
    assert (Hin : r ∈ filter (λ r0, id r0 = id r) rs) by (by apply list_elem_of_filter).
    destruct (filter _ rs); [by apply elem_of_nil in Hin | simpl; lia].
Qed.

Lemma update_absent (i : Z) (s : TaskStatus) (rs : list Task) :
  i ∉ id <$> rs →
  (λ r, if decide (id r = i) then withStatus r s else r) <$> rs = rs.
Proof.
  intros Hi. rewrite <- (list_fmap_id rs) at 2. apply list_fmap_ext.
  intros k r Hk. simpl. rewrite decide_False; [done|].
  intros <-. apply Hi. apply list_elem_of_fmap_2. by eapply list_elem_of_lookup_2.
Qed.

Lemma delete_absent (i : Z) (rs : list Task) :
  i ∉ id <$> rs → filter (λ r, id r ≠ i) rs = rs.
Proof.
  induction rs as [|r rs IH]; [done|]. rewrite fmap_cons, not_elem_of_cons.
  intros [Hr Hrs]. rewrite filter_cons, decide_True by done. by rewrite IH.
Qed.

Lemma updateTaskStatus_run w db i s :
  database w = Some db → nextFault w = false →
  updateTaskStatus i s w
  = (Returned (bool_decide (i ∈ id <$> rows (table w))),
     after w {| rows := (λ r, if decide (id r = i) then withStatus r s else r)
                          <$> rows (table w);
                seq := seq (table w) |}).
Proof.
  intros Hdb Hok. unfold_service. rewrite Hdb. simpl.
  rewrite (engine_returns _ _ Hok). simpl.
  destruct (decide _) as [H|H]; rewrite changes_positive in H; simpl.
  - by rewrite bool_decide_eq_true_2.
  - by rewrite bool_decide_eq_false_2.
Qed.

Lemma deleteTask_run w db i :
  database w = Some db → nextFault w = false →
  deleteTask i w
  = (Returned (bool_decide (i ∈ id <$> rows (table w))),
     after w {| rows := filter (λ r, id r ≠ i) (rows (table w));
                seq := seq (table w) |}).
Proof.
  intros Hdb Hok. unfold_service. rewrite Hdb. simpl.
  rewrite (engine_returns _ _ Hok). simpl.
  destruct (decide _) as [H|H]; rewrite changes_positive in H; simpl.
  - by rewrite bool_decide_eq_true_2.
  - by rewrite bool_decide_eq_false_2.
Qed.

(** X15.  On an open connection whose engine call does not throw,
    [updateTaskStatus] returns true exactly when a row has the id; it
    changes the rows as the screen's [moveTask] changes the task list
    (same ids, titles and order, new status on the rows with that id),
    and with no such row it leaves the table as it was. *)
Theorem update_reports_and_mirrors (w : World) (taskId : Z) (newStatus : TaskStatus)
    (Hready : ready w) (Hengine : nextFault w = false) :
  ∃ found w1,
    updateTaskStatus taskId newStatus w = (Returned found, w1) ∧
    (found = true ↔ taskId ∈ id <$> rows (table w)) ∧
    rows (table w1)
      = TasksScreen.tasks
          (TasksScreen.moveTask taskId newStatus
             {| TasksScreen.tasks := rows (table w);
                TasksScreen.newTaskTitle := [];
                TasksScreen.draggedTask := None |}) ∧
    seq (table w1) = seq (table w) ∧
    (found = false → table w1 = table w).
Proof.
  destruct Hready as [db Hdb].
  rewrite (updateTaskStatus_run w db _ _ Hdb Hengine).
  eexists _, _. split; [reflexivity|]. simpl.
  split; [apply bool_decide_eq_true|]. split; [done|]. split; [done|].
  intros H%bool_decide_eq_false. rewrite update_absent by done.
  by destruct (table w).
Qed.

Lemma update_reports_and_mirrors_witness :
  (updateTaskStatus 2 Completed (seedInitialDataIfNeeded freshlyOpened).2).1
    = Returned true ∧
  (updateTaskStatus 9 Completed (seedInitialDataIfNeeded freshlyOpened).2).1
    = Returned false.
Proof.
  split.
  - destruct (update_reports_and_mirrors (seedInitialDataIfNeeded freshlyOpened).2
                2 Completed) as (found & w1 & -> & Hfound & _);
      [by (exists Connection) | reflexivity |].
    simpl. f_equal. apply Hfound. apply (bool_decide_unpack _). by vm_compute.
  - reflexivity.
Defined.

(** X16.  On an open connection with a quiet engine, [deleteTask] returns
    true exactly when a row has the id; afterwards no row has it and the
    other rows are there in their old order; deleting an id that is not
    there changes nothing, so a second [deleteTask] of the same id
    returns false. *)
Theorem delete_removes_the_row (w : World) (taskId : Z)
    (Hready : ready w) (Hquiet : quiet w) :
  ∃ found w1,
    deleteTask taskId w = (Returned found, w1) ∧
    (found = true ↔ taskId ∈ id <$> rows (table w)) ∧
    rows (table w1) = filter (λ r, id r ≠ taskId) (rows (table w)) ∧
    (taskId ∉ id <$> rows (table w1)) ∧
    seq (table w1) = seq (table w) ∧
    (found = false → table w1 = table w) ∧
    (deleteTask taskId w1).1 = Returned false ∧
    table (deleteTask taskId w1).2 = table w1.
Proof.
  destruct Hready as [db Hdb].
  rewrite (deleteTask_run w db _ Hdb (quiet_next w Hquiet)).
  set (t1 := {| rows := filter (λ r, id r ≠ taskId) (rows (table w));
                seq := seq (table w) |}).
  assert (Hgone : taskId ∉ id <$> rows t1).
  { simpl. intros (r & -> & Hr)%list_elem_of_fmap.
    apply list_elem_of_filter in Hr. tauto. }
  exists (bool_decide (taskId ∈ id <$> rows (table w))), (after w t1).
  split; [reflexivity|].
  split; [apply bool_decide_eq_true|]. split; [done|]. split; [done|].
  split; [done|]. split.
  { intros H%bool_decide_eq_false. subst t1. simpl.
    rewrite delete_absent by done. by destruct (table w). }
  rewrite (deleteTask_run (after w t1) db taskId Hdb
             (quiet_next _ (quiet_after w t1 Hquiet))).
  simpl. split.
  - f_equal. by apply bool_decide_eq_false_2.
  - rewrite delete_absent by done. done.
Qed.

Lemma delete_removes_the_row_witness :
  ∃ w1,
    deleteTask 3 (seedInitialDataIfNeeded freshlyOpened).2 = (Returned true, w1) ∧
    id <$> rows (table w1) = [1; 2; 4].
Proof.
  destruct (delete_removes_the_row (seedInitialDataIfNeeded freshlyOpened).2 3)
    as (found & w1 & Hrun & Hfound & Hrows & _);
    [by (exists Connection) | reflexivity |].
  exists w1. split.
  - rewrite Hrun. f_equal. f_equal. apply Hfound.
    apply (bool_decide_unpack _). by vm_compute.
  - by rewrite Hrows.
Defined.

(** ** Counting and clearing *)

Lemma counts_lookup (rs : list Task) (s : TaskStatus) :
  foldl (λ counts (row : TaskStatus * Z), <[row.1 := row.2]> counts) zeroCounts
    (omap (λ c, let n := length (filter (λ r, status r = c) rs) in
                if decide (n = 0%nat) then None else Some (c, Z.of_nat n))
          [Completed; InProgress; ToDo]) !! s
  = Some (Z.of_nat (length (filter (λ r, status r = s) rs))).
Proof.
  unfold zeroCounts. simpl.
  destruct (decide (length (filter (λ r, status r = Completed) rs) = 0%nat)) as [H1|H1],
    (decide (length (filter (λ r, status r = InProgress) rs) = 0%nat)) as [H2|H2],
    (decide (length (filter (λ r, status r = ToDo) rs) = 0%nat)) as [H3|H3];
    simpl; destruct s; simplify_map_eq; by rewrite ?H1, ?H2, ?H3.
Qed.

Lemma getTaskCountByStatus_run w db :
  database w = Some db → nextFault w = false →
  ∃ counts,
    getTaskCountByStatus w = (Returned counts, after w (table w)) ∧
    ∀ s, counts !! s
         = Some (Z.of_nat (length (filter (λ r, status r = s) (rows (table w))))).
Proof.
  intros Hdb Hok. unfold_service. rewrite Hdb. cbn [fst snd].
  rewrite (engine_returns _ _ Hok). cbn [fst snd].
  eexists. split; [reflexivity|]. intros s. apply counts_lookup.
Qed.

(** X17.  On an open connection whose engine call does not throw,
    [getTaskCountByStatus] gives, for each of the three statuses, the
    number of rows with that status (zero when there is none); the three
    numbers add up to the number of rows, and when the rows are the
    screen's task list they are the sizes of the screen's groups. *)
Theorem counts_match_the_rows (w : World)
    (Hready : ready w) (Hengine : nextFault w = false) :
  ∃ counts n1 n2 n3,
    (getTaskCountByStatus w).1 = Returned counts ∧
    (∀ s, counts !! s
          = Some (Z.of_nat (length (filter (λ r, status r = s) (rows (table w)))))) ∧
    counts !! ToDo = Some n1 ∧ counts !! InProgress = Some n2 ∧
    counts !! Completed = Some n3 ∧
    n1 + n2 + n3 = Z.of_nat (length (rows (table w))) ∧
    (∀ s, (Z.of_nat ∘ length) <$> TasksScreen.groupedTasks (rows (table w)) !! s
          = counts !! s).
Proof.
  destruct Hready as [db Hdb].
  destruct (getTaskCountByStatus_run w db Hdb Hengine) as (counts & -> & Hcounts).
  exists counts. eexists _, _, _. split; [done|]. split; [done|].
  rewrite !Hcounts. split; [done|]. split; [done|]. split; [done|]. split.
  - pose proof (Permutation_length (filter_by_status_complete (rows (table w)))) as H.
    rewrite !length_app in H. lia.
  - intros s. by rewrite groupedTasks_lookup, Hcounts.
Qed.

Lemma counts_match_the_rows_witness :
  ∃ counts,
    (getTaskCountByStatus (seedInitialDataIfNeeded freshlyOpened).2).1
      = Returned counts ∧
    counts !! ToDo = Some 2 ∧ counts !! InProgress = Some 1 ∧
    counts !! Completed = Some 1.
Proof.
  destruct (counts_match_the_rows (seedInitialDataIfNeeded freshlyOpened).2)
    as (counts & n1 & n2 & n3 & Hrun & Hcounts & _);
    [by (exists Connection) | reflexivity |].
  exists counts. split; [done|]. by rewrite !Hcounts.
Defined.

Lemma clearAllTasks_run w db :
  database w = Some db → nextFault w = false →
  clearAllTasks w
  = (Returned true, after w {| rows := []; seq := seq (table w) |}).
Proof.
  intros Hdb Hok. unfold_service. rewrite Hdb. simpl.
  by rewrite (engine_returns _ _ Hok).
Qed.

(** X18.  On an open connection with a quiet engine, [clearAllTasks]
    returns true and leaves no row: [getAllTasks] then returns the empty
    list and every count is zero.  The ids that were handed out are not
    handed out again: a task added after the clearing gets an id above
    every id the table held before. *)
Theorem clear_empties_and_ids_are_not_reused
    (w : World) (newTitle : Js.str) (newStatus : TaskStatus)
    (Hready : ready w) (Hquiet : quiet w) (Hwf : wellFormed (table w)) :
  ∃ w1 created,
    clearAllTasks w = (Returned true, w1) ∧
    rows (table w1) = [] ∧
    (getAllTasks w1).1 = Returned [] ∧
    (∃ counts, (getTaskCountByStatus w1).1 = Returned counts ∧
               ∀ s, counts !! s = Some 0) ∧
    (addTask newTitle newStatus w1).1 = Returned (Some created) ∧
    (∀ r, r ∈ rows (table w) → id r < id created).
Proof.
  destruct Hready as [db Hdb].
  rewrite (clearAllTasks_run w db Hdb (quiet_next w Hquiet)).
  set (t1 := {| rows := []; seq := seq (table w) |}).
  pose proof (quiet_next _ (quiet_after w t1 Hquiet)) as Hnext.
  exists (after w t1). eexists. split; [reflexivity|]. split; [done|].
  rewrite (getAllTasks_run (after w t1) db Hdb Hnext).
  rewrite (addTask_run (after w t1) db _ _ Hdb Hnext).
  destruct (getTaskCountByStatus_run (after w t1) db Hdb Hnext)
    as (counts & -> & Hcounts).
  split; [done|]. split; [by exists counts|]. split; [reflexivity|].
  intros r Hr. destruct Hwf as [_ Hbound].
  rewrite Forall_forall in Hbound. specialize (Hbound r Hr). simpl. lia.
Qed.

Lemma clear_empties_and_ids_are_not_reused_witness :
  ∃ w1,
    clearAllTasks (seedInitialDataIfNeeded freshlyOpened).2 = (Returned true, w1) ∧
    (addTask (Js.lit "Start over") ToDo w1).1
      = Returned (Some {| id := 5; title := Js.lit "Start over"; status := ToDo |}).
Proof.
  destruct (clear_empties_and_ids_are_not_reused
              (seedInitialDataIfNeeded freshlyOpened).2 (Js.lit "Start over") ToDo)
    as (w1 & created & Hclear & _ & _ & _ & Hadd & _).
  - by exists Connection.
  - reflexivity.
  - apply wellFormed_seed. split; constructor.
  - exists w1. split; [done|].
    vm_compute in Hclear. injection Hclear as <-. rewrite Hadd.
    vm_compute in Hadd. by injection Hadd as <-.
Defined.

(** The seeding loop throws nothing but what the engine throws. *)
Lemma for_of_insert_errors db (l : list (Js.str * TaskStatus)) (w : World) :
  ∀ e, (for_of l (λ task, (let* _ := runAsync_insert db task.1 task.2 in ret ())%js) w).1
       = Thrown e → e = EngineError.
Proof.
  revert w. induction l as [|task l IH]; intros w e; simpl; [done|].
  unfold bind at 1 2, runAsync_insert, ret.
  engine_cases; [by intros [= <-] | apply IH].
Qed.

Lemma seed_on_a_handle (w : World) :
  ready w → (seedInitialDataIfNeeded w).1 ≠ Thrown DatabaseNotInitialized.
Proof.
  intros [db Hdb]. rewrite seed_unfold, Hdb. unfold getFirstAsync_count.
  engine_cases; [done|]. destruct (decide _) as [Hzero|Hmore]; [|done].
  intros H. by apply for_of_insert_errors in H.
Qed.

(** ** Opening and closing *)

(** A world whose engine never throws. *)
Let calm (d : option SQLiteDatabase) (t : Table) : World :=
  {| database := d; table := t; faults := [] |}.

Lemma quiet_calm w : quiet w → w = calm (database w) (table w).
Proof. destruct w as [d t f]. unfold quiet. simpl. by intros ->. Qed.



(** X20.  [initializeDatabase] throws nothing but its own 'Failed to
    initialize database' error.  When opening the database throws, the
    handle stays as it was.  When opening succeeds and creating the table
    throws, the error is thrown but the handle is already set: the
    service then counts as initialised, and [seedInitialDataIfNeeded] no
    longer throws 'Database not initialized'. *)
Theorem initialize_failure_modes (w : World) :
  (∀ e, (initializeDatabase w).1 = Thrown e → e = FailedToInitialize) ∧
  (nextFault w = true →
     initializeDatabase w = (Thrown FailedToInitialize, afterFault w)) ∧
  (∀ later, faults w = false :: true :: later →
     let w' := {| database := Some Connection; table := table w; faults := later |} in
     initializeDatabase w = (Thrown FailedToInitialize, w') ∧
     (seedInitialDataIfNeeded w').1 ≠ Thrown DatabaseNotInitialized).
Proof.
  split; [|split].
  - intros e. unfold_service. engine_cases; [by intros [= <-]|].
    simpl. engine_cases; [by intros [= <-] | done].
  - intros H. unfold_service. by rewrite (engine_throws _ _ H).
  - intros later Hf. split.
    + unfold_service. unfold engine. rewrite Hf. simpl. done.
    + apply seed_on_a_handle. by exists Connection.
Qed.

Lemma initialize_failure_modes_witness :
  (initializeDatabase
     {| database := None; table := emptyTable; faults := [false; true] |}).1
    = Thrown FailedToInitialize ∧
  database (initializeDatabase
     {| database := None; table := emptyTable; faults := [false; true] |}).2
    = Some Connection.
Proof.
  destruct (initialize_failure_modes
              {| database := None; table := emptyTable; faults := [false; true] |})
    as (_ & _ & Hcreate).
  destruct (Hcreate [] eq_refl) as [-> _]. by split.
Defined.

(** X21.  [closeDatabase] never throws and never changes the table.  On
    a service without a handle it does nothing at all; and when closing
    the connection throws, the handle stays set, so the service still
    counts as initialised. *)
Theorem close_never_throws (w : World) :
  (closeDatabase w).1 = Returned () ∧
  table (closeDatabase w).2 = table w ∧
  (database w = None → closeDatabase w = (Returned (), w)) ∧
  (nextFault w = true → ready w →
     database (closeDatabase w).2 = database w ∧
     (seedInitialDataIfNeeded (closeDatabase w).2).1 ≠ Thrown DatabaseNotInitialized).
Proof.
  unfold closeDatabase, closeAsync, try_catch, bind, this_database,
    set_this_database, ret, ready.
  destruct (database w) as [db|] eqn:Hdb; simpl.
  - destruct (engine_outcome (λ t : Table, ((), t)) w) as [[-> Hnext] | [-> Hnext]];
      simpl; (split; [done|]); (split; [done|]); (split; [by intros [=]|]).
    + intros _ _. split; [done|].
      apply (seed_on_a_handle (afterFault w)). by exists db.
    + intros H. congruence.
  - repeat split; try done; by intros _ [? ?].
Qed.

Lemma close_never_throws_witness :
  database (closeDatabase
    {| database := Some Connection; table := emptyTable; faults := [true] |}).2
  = Some Connection.
Proof.
  destruct (close_never_throws
    {| database := Some Connection; table := emptyTable; faults := [true] |})
    as (_ & _ & _ & Hkept).
  destruct Hkept as [-> _]; [reflexivity | by (exists Connection) | reflexivity].
Defined.

(** ** Seeding with a failing engine *)

Lemma inserts_extend (l : list (Js.str * TaskStatus)) (t : Table) :
  rows t `prefix_of` rows (foldl (λ acc task, (insertRow task.1 task.2 acc).2) t l) ∧
  length (rows (foldl (λ acc task, (insertRow task.1 task.2 acc).2) t l))
    = (length (rows t) + length l)%nat.
Proof.
  revert t. induction l as [|task l IH]; intros t; cbn [foldl].
  - split; [done | simpl; lia].
  - destruct (IH (insertRow task.1 task.2 t).2) as [Hp Hl]. split.
    + etrans; [|exact Hp]. simpl. by apply prefix_app_r.
    + rewrite Hl. simpl. rewrite length_app. simpl. lia.
Qed.

Lemma for_of_insert_partial db (l : list (Js.str * TaskStatus)) (w w' : World) o :
  for_of l (λ task, (let* _ := runAsync_insert db task.1 task.2 in ret ())%js) w
    = (o, w') →
  ∃ k, (k ≤ length l)%nat ∧
    table w' = foldl (λ acc task, (insertRow task.1 task.2 acc).2) (table w) (take k l) ∧
    database w' = database w.
Proof.
  revert w. induction l as [|task l IH]; intros w; simpl.
  - intros [= _ <-]. exists 0%nat. by repeat split.
  - unfold bind at 1 2, runAsync_insert, ret.
    destruct (engine_outcome (insertRow task.1 task.2) w) as [[-> _] | [-> _]].
    + intros [= _ <-]. exists 0%nat. simpl. repeat split; [lia | done..].
    + cbn [fst snd]. intros H. destruct (IH _ H) as (k & Hk & Ht & Hd).
      exists (S k). split; [simpl; lia|]. split; [by rewrite Ht | by rewrite Hd].
Qed.

(** X22.  Whatever the engine does, [seedInitialDataIfNeeded] only
    appends: the table afterwards is the table before with the first k of
    the four default tasks inserted in order, with k = 0 when the table
    had a row.  An interrupted seeding that got at least one row in is
    never completed by calling the method again.  The handle is not
    touched, and 'Database not initialized' is thrown exactly when there
    is no handle. *)
Theorem seed_only_appends (w : World) :
  ∃ k, (k ≤ 4)%nat ∧
    table (seedInitialDataIfNeeded w).2
      = foldl (λ acc task, (insertRow task.1 task.2 acc).2) (table w)
              (take k INITIAL_TASKS) ∧
    rows (table w) `prefix_of` rows (table (seedInitialDataIfNeeded w).2) ∧
    length (rows (table (seedInitialDataIfNeeded w).2))
      = (length (rows (table w)) + k)%nat ∧
    (rows (table w) ≠ [] → k = 0%nat) ∧
    ((0 < k)%nat →
       table (seedInitialDataIfNeeded (seedInitialDataIfNeeded w).2).2
         = table (seedInitialDataIfNeeded w).2) ∧
    database (seedInitialDataIfNeeded w).2 = database w ∧
    ((seedInitialDataIfNeeded w).1 = Thrown DatabaseNotInitialized ↔ database w = None).
Proof.
  assert (Hk : ∃ k, (k ≤ 4)%nat ∧
    table (seedInitialDataIfNeeded w).2
      = foldl (λ acc task, (insertRow task.1 task.2 acc).2) (table w)
              (take k INITIAL_TASKS) ∧
    (rows (table w) ≠ [] → k = 0%nat) ∧
    database (seedInitialDataIfNeeded w).2 = database w).
  { rewrite seed_unfold. unfold getFirstAsync_count.
    assert (Hnothing : ∀ o w0, table w0 = table w → database w0 = database w →
      ∃ k, (k ≤ 4)%nat ∧
        table (o, w0).2
          = foldl (λ acc task, (insertRow task.1 task.2 acc).2) (table w)
                  (take k INITIAL_TASKS) ∧
        (rows (table w) ≠ [] → k = 0%nat) ∧
        database (o : Outcome unit, w0).2 = database w).
    { intros o w0 Ht Hd. exists 0%nat. simpl. repeat split; (lia || done). }
    destruct (database w) as [db|] eqn:Hdb;
      [|exact (Hnothing (Thrown DatabaseNotInitialized) w eq_refl Hdb)].
    engine_cases; [exact (Hnothing (Thrown EngineError) (afterFault w) eq_refl Hdb)|].
    destruct (decide _) as [Hzero|Hmore];
      [|exact (Hnothing (Returned ()) (after w (table w)) eq_refl Hdb)].
    match goal with |- context [for_of ?l ?body ?w0] =>
      destruct (for_of l body w0) as [o w'] eqn:Hloop end.
    destruct (for_of_insert_partial db _ _ _ _ Hloop) as (k & Hle & Ht & Hd).
    exists k. cbn [fst snd]. rewrite Ht, Hd. cbn [database table].
    split; [exact Hle|]. split; [done|]. split; [|done].
    intros Hrows. destruct (rows (table w)); [done | simpl in Hzero; lia]. }
  destruct Hk as (k & Hle & Ht & Hnonempty & Hd).
  pose proof (inserts_extend (take k INITIAL_TASKS) (table w)) as [Hprefix Hlen].
  rewrite length_take in Hlen.
  replace (k `min` length INITIAL_TASKS)%nat with k in Hlen by (simpl; lia).
  exists k. rewrite Ht. repeat split; try done.
  - intros Hpos. rewrite <- Ht. apply seed_nonempty. rewrite Ht.
    intros Hnil. rewrite Hnil in Hlen. simpl in Hlen. lia.
  - intros H. destruct (database w) as [db|] eqn:Hdb; [|done].
    exfalso. eapply seed_on_a_handle; [|exact H]. by exists db.
  - intros Hnone. rewrite seed_unfold. by rewrite Hnone.
Qed.

(** ** The maintenance script *)

Lemma bind_returned {A B} (c : M A) (k : A → M B) w a w' :
  c w = (Returned a, w') → bind c k w = k a w'.
Proof. intros H. unfold bind. by rewrite H. Qed.

Lemma try_catch_returned {A} (c : M A) (h : Error → M A) w a w' :
  c w = (Returned a, w') → try_catch c h w = (Returned a, w').
Proof. intros H. unfold try_catch. by rewrite H. Qed.

Lemma for_of_calm db d (l : list (Js.str * TaskStatus)) (t : Table) :
  for_of l (λ task, (let* _ := runAsync_insert db task.1 task.2 in ret ())%js) (calm d t)
  = (Returned (), calm d (foldl (λ acc task, (insertRow task.1 task.2 acc).2) t l)).
Proof.
  revert t. induction l as [|task l IH]; intros t; [done|].
  cbn [for_of foldl]. erewrite bind_returned; [apply IH | reflexivity].
Qed.

Lemma seed_calm (t : Table) :
  seedInitialDataIfNeeded (calm (Some Connection) t)
  = (Returned (),
     calm (Some Connection) (if decide (rows t = []) then seedTable t else t)).
Proof.
  rewrite seed_unfold. unfold getFirstAsync_count.
  rewrite engine_returns by done. unfold calm.
  cbn [fst snd table database faults tail].
  destruct (decide (rows t = [])) as [Hrows|Hrows].
  - rewrite Hrows. cbn [length]. rewrite decide_True by done.
    exact (for_of_calm Connection (Some Connection) INITIAL_TASKS t).
  - rewrite decide_False; [done|]. destruct (rows t); [done | simpl; lia].
Qed.

Lemma addSeedTasks_calm (l : list (Js.str * TaskStatus)) (n m : Z) (t : Table) :
  SeedScript.addSeedTasks l n m (calm (Some Connection) t)
  = (Returned (n + Z.of_nat (length l), m),
     calm (Some Connection) (foldl (λ acc task, (insertRow task.1 task.2 acc).2) t l)).
Proof.
  revert n m t. induction l as [|task l IH]; intros n m t.
  - replace (n + Z.of_nat (length (@nil (Js.str * TaskStatus)))) with n
      by (simpl; lia).
    reflexivity.
  - cbn [SeedScript.addSeedTasks foldl].
    erewrite bind_returned.
    2:{ apply try_catch_returned. erewrite bind_returned.
        2:{ apply (addTask_run (calm (Some Connection) t) Connection); done. }
        reflexivity. }
    cbn [fst snd].
    change (after (calm (Some Connection) t)
              (insertRow task.1 task.2 (table (calm (Some Connection) t))).2)
      with (calm (Some Connection) (insertRow task.1 task.2 t).2).
    rewrite IH.
    replace (n + 1 + Z.of_nat (length l)) with (n + Z.of_nat (length (task :: l)))
      by (simpl length; lia).
    reflexivity.
Qed.

(** X23.  With a quiet engine a run of the seed script always finishes
    and closes the connection.  It reports the rows that were there, 7
    added tasks and no error; the table afterwards is the old table, with
    the four default tasks inserted first if it was empty, followed by
    the script's seven tasks.  The script adds its seven tasks whether
    the table was empty or not: a second run adds seven rows more. *)
Theorem seed_script_with_a_quiet_engine (w : World) (Hquiet : quiet w) :
  ∃ report w',
    SeedScript.seedDatabase w = (SeedScript.Finished report, w') ∧
    database w' = None ∧
    SeedScript.existingCount report = length (rows (table w)) ∧
    SeedScript.successCount report = 7 ∧
    SeedScript.errorCount report = 0 ∧
    SeedScript.finalCount report = length (rows (table w')) ∧
    (∀ s, SeedScript.taskCounts report !! s
          = Some (Z.of_nat (length (filter (λ r, status r = s) (rows (table w')))))) ∧
    table w'
      = foldl (λ acc task, (insertRow task.1 task.2 acc).2)
              (if decide (rows (table w) = []) then seedTable (table w) else table w)
              SeedScript.SEED_TASKS ∧
    length (rows (table w'))
      = (length (rows (table w))
         + (if decide (rows (table w) = []) then 4 else 0) + 7)%nat ∧
    ∃ report' w'',
      SeedScript.seedDatabase w' = (SeedScript.Finished report', w'') ∧
      length (rows (table w'')) = (length (rows (table w')) + 7)%nat.
Proof.
  assert (Hrun : ∀ d t,
    let t' := foldl (λ acc task, (insertRow task.1 task.2 acc).2)
                (if decide (rows t = []) then seedTable t else t)
                SeedScript.SEED_TASKS in
    ∃ counts,
      SeedScript.seedDatabase (calm d t)
      = (SeedScript.Finished
           {| SeedScript.existingCount := length (orderById (rows t));
              SeedScript.successCount := 7;
              SeedScript.errorCount := 0;
              SeedScript.finalCount := length (orderById (rows t'));
              SeedScript.taskCounts := counts |},
         calm None t') ∧
      ∀ s, counts !! s = Some (Z.of_nat (length (filter (λ r, status r = s) (rows t'))))).
  { intros d t t'.
    destruct (getTaskCountByStatus_run (calm (Some Connection) t') Connection)
      as (counts & Hcount & Hcounts); [done..|].
    exists counts. split; [|exact Hcounts].
    unfold SeedScript.seedDatabase, SeedScript.seedDatabase_try.
    erewrite bind_returned; [|reflexivity].
    erewrite bind_returned; [|reflexivity].
    erewrite bind_returned; [|apply try_catch_returned, seed_calm].
    erewrite bind_returned; [|apply addSeedTasks_calm].
    erewrite bind_returned; [|reflexivity].
    erewrite bind_returned; [|exact Hcount].
    reflexivity. }
  assert (Hlen : ∀ t,
    length (rows (foldl (λ acc task, (insertRow task.1 task.2 acc).2)
                    (if decide (rows t = []) then seedTable t else t)
                    SeedScript.SEED_TASKS))
    = (length (rows t) + (if decide (rows t = []) then 4 else 0) + 7)%nat).
  { intros t. rewrite (proj2 (inserts_extend _ _)).
    destruct (decide (rows t = [])) as [Hrows|Hrows]; [|simpl; lia].
    rewrite seedTable_rows, Hrows. simpl. lia. }
  rewrite (quiet_calm w Hquiet). generalize (database w) (table w). intros d t.
  destruct (Hrun d t) as (counts & Hfirst & Hcounts). cbv zeta in *.
  set (t' := foldl _ _ SeedScript.SEED_TASKS) in *.
  eexists _, _. split; [exact Hfirst|]. cbn [database table calm
    SeedScript.existingCount SeedScript.successCount SeedScript.errorCount
    SeedScript.finalCount SeedScript.taskCounts].
  split; [done|].
  split; [apply Permutation_length, merge_sort_Permutation|].
  split; [done|]. split; [done|].
  split; [apply Permutation_length, merge_sort_Permutation|].
  split; [exact Hcounts|]. split; [done|]. split; [apply Hlen|].
  destruct (Hrun None t') as (counts' & Hsecond & _). cbv zeta in *.
  eexists _, _. split; [exact Hsecond|]. cbn [table calm].
  rewrite Hlen. rewrite decide_False; [lia|].
  intros Hnil. pose proof (Hlen t) as H. fold t' in H. rewrite Hnil in H.
  simpl in H. lia.
Qed.

Lemma seed_script_with_a_quiet_engine_witness :
  ∃ report w',
    SeedScript.seedDatabase (sqliteService emptyTable)
      = (SeedScript.Finished report, w') ∧
    length (rows (table w')) = 11%nat.
Proof.
  destruct (seed_script_with_a_quiet_engine (sqliteService emptyTable) eq_refl)
    as (report & w' & Hrun & _ & _ & _ & _ & _ & _ & _ & Hlen & _).
  exists report, w'. by split.
Defined.

Lemma initializeDatabase_any (w : World) :
  (∃ w0, initializeDatabase w = (Returned Connection, w0) ∧
         database w0 = Some Connection ∧ table w0 = table w) ∨
  (∃ w0, initializeDatabase w = (Thrown FailedToInitialize, w0) ∧ table w0 = table w).
Proof.
  unfold_service. engine_cases; [right; by eexists|].
  cbn [fst snd]. engine_cases; [right | left]; by eexists.
Qed.

Lemma getAllTasks_any (w : World) :
  ∃ l w', getAllTasks w = (Returned l, w') ∧
          table w' = table w ∧ database w' = database w.
Proof.
  unfold_service. destruct (database w) as [db|] eqn:Hdb; cbn [fst snd].
  - engine_cases; by eexists _, _.
  - by eexists _, _.
Qed.

Lemma getTaskCountByStatus_any (w : World) :
  ∃ c w', getTaskCountByStatus w = (Returned c, w') ∧
          table w' = table w ∧ database w' = database w.
Proof.
  unfold_service. destruct (database w) as [db|] eqn:Hdb; cbn [fst snd].
  - engine_cases; by eexists _, _.
  - by eexists _, _.
Qed.

Lemma closeDatabase_any (w : World) :
  ∃ w', closeDatabase w = (Returned (), w') ∧ table w' = table w.
Proof.
  unfold_service. destruct (database w) as [db|] eqn:Hdb; cbn [fst snd].
  - engine_cases; by eexists.
  - by eexists.
Qed.

Lemma addTask_any (w : World) ttl s :
  ∃ o w', addTask ttl s w = (Returned o, w') ∧
    database w' = database w ∧
    length (rows (table w'))
      = (length (rows (table w)) + if o is Some _ then 1 else 0)%nat.
Proof.
  unfold_service. destruct (database w) as [db|] eqn:Hdb; cbn [fst snd].
  - engine_cases.
    + eexists _, _. split; [reflexivity|]. simpl. split; [done | lia].
    + unfold insertRow. cbn [fst snd]. rewrite decide_True by lia.
      eexists _, _. split; [reflexivity|]. simpl. split; [done|].
      by rewrite length_app.
  - eexists _, _. split; [reflexivity|]. simpl. split; [done | lia].
Qed.

Lemma addSeedTasks_any (l : list (Js.str * TaskStatus)) (n m : Z) (w : World) :
  ∃ n' m' w',
    SeedScript.addSeedTasks l n m w = (Returned (n', m'), w') ∧
    n' + m' = n + m + Z.of_nat (length l) ∧ n ≤ n' ∧ m ≤ m' ∧
    Z.of_nat (length (rows (table w')))
      = Z.of_nat (length (rows (table w))) + (n' - n).
Proof.
  revert n m w. induction l as [|task l IH]; intros n m w.
  - exists n, m, w. simpl. repeat split; lia.
  - cbn [SeedScript.addSeedTasks].
    destruct (addTask_any w task.1 task.2) as (o & w1 & Hadd & _ & Hlen).
    assert (Hstep : ∃ n1 m1,
      try_catch
        (let* newTask := addTask task.1 task.2 in
         match newTask with
         | Some _ => ret (n + 1, m)
         | None => ret (n, m + 1)
         end)%js
        (λ _, ret (n, m + 1)) w = (Returned (n1, m1), w1) ∧
      n1 + m1 = n + m + 1 ∧ n ≤ n1 ∧ m ≤ m1 ∧
      Z.of_nat (length (rows (table w1)))
        = Z.of_nat (length (rows (table w))) + (n1 - n)).
    { destruct o as [t|].
      - exists (n + 1), m. split; [|repeat split; lia].
        apply try_catch_returned. erewrite bind_returned; [|exact Hadd]. done.
      - exists n, (m + 1). split; [|repeat split; lia].
        apply try_catch_returned. erewrite bind_returned; [|exact Hadd]. done. }
    destruct Hstep as (n1 & m1 & Hstep & Hsum & Hn & Hm & Hrows).
    erewrite bind_returned; [|exact Hstep]. cbn [fst snd].
    destruct (IH n1 m1 w1) as (n' & m' & w' & -> & Hsum' & Hn' & Hm' & Hrows').
    exists n', m', w'. split; [done|]. simpl length. lia.
Qed.

Lemma seed_partial (w : World) :
  ∃ o w' k, seedInitialDataIfNeeded w = (o, w') ∧ (k ≤ 4)%nat ∧
    length (rows (table w')) = (length (rows (table w)) + k)%nat.
Proof.
  rewrite seed_unfold. unfold getFirstAsync_count.
  destruct (database w) as [db|] eqn:Hdb;
    [|eexists _, _, 0%nat; split; [reflexivity | simpl; lia]].
  engine_cases; [eexists _, _, 0%nat; split; [reflexivity | simpl; lia]|].
  destruct (decide _) as [Hzero|Hmore];
    [|eexists _, _, 0%nat; split; [reflexivity | simpl; lia]].
  match goal with |- context [for_of ?l ?body ?w0] =>
    destruct (for_of l body w0) as [o w'] eqn:Hloop end.
  destruct (for_of_insert_partial db _ _ _ _ Hloop) as (k & Hle & Ht & _).
  exists o, w', k. split; [done|]. split; [exact Hle|].
  rewrite Ht. rewrite (proj2 (inserts_extend _ _)), length_take. simpl in *. lia.
Qed.

(** X24.  However the engine behaves, a run of the seed script ends in
    one of two ways.  If [initializeDatabase] throws, the script exits
    with code 1 at once, with the table untouched.  Otherwise it runs to
    its end: the added and failed tasks it reports add up to 7, and the
    table has grown by the rows of the built-in seeding (at most 4) plus
    one row for each task reported as added. *)
Theorem seed_script_ending (w : World) :
  (∀ e w0, initializeDatabase w = (Thrown e, w0) →
     SeedScript.seedDatabase w = (SeedScript.Exit 1, w0) ∧ table w0 = table w) ∧
  (∀ db w0, initializeDatabase w = (Returned db, w0) →
     ∃ report w' k,
       SeedScript.seedDatabase w = (SeedScript.Finished report, w') ∧
       SeedScript.successCount report + SeedScript.errorCount report = 7 ∧
       0 ≤ SeedScript.successCount report ∧ 0 ≤ SeedScript.errorCount report ∧
       (k ≤ 4)%nat ∧
       Z.of_nat (length (rows (table w')))
         = Z.of_nat (length (rows (table w))) + Z.of_nat k
           + SeedScript.successCount report).
Proof.
  unfold SeedScript.seedDatabase, SeedScript.seedDatabase_try. split.
  - intros e w0 Hinit. unfold bind at 1. rewrite Hinit. split; [done|].
    destruct (initializeDatabase_any w) as [(w1 & H & _ & Ht) | (w1 & H & Ht)];
      rewrite H in Hinit; by simplify_eq.
  - intros db w0 Hinit.
    destruct (initializeDatabase_any w) as [(w0' & H & _ & Ht0) | (w0' & H & _)];
      rewrite H in Hinit; simplify_eq.
    erewrite bind_returned; [|exact H].
    destruct (getAllTasks_any w0) as (existing & w1 & Hall & Ht1 & _).
    erewrite bind_returned; [|exact Hall].
    destruct (seed_partial w1) as (o & w2 & k & Hseed & Hk & Ht2).
    assert (Hseed' : try_catch seedInitialDataIfNeeded (λ _, ret ()) w1
                     = (Returned (), w2)).
    { unfold try_catch. rewrite Hseed. by destruct o as [[]|]. }
    erewrite bind_returned; [|exact Hseed'].
    destruct (addSeedTasks_any SeedScript.SEED_TASKS 0 0 w2)
      as (n & m & w3 & Hloop & Hsum & Hn & Hm & Ht3).
    erewrite bind_returned; [|exact Hloop].
    destruct (getAllTasks_any w3) as (final & w4 & Hfinal & Ht4 & _).
    erewrite bind_returned; [|exact Hfinal].
    destruct (getTaskCountByStatus_any w4) as (counts & w5 & Hcount & Ht5 & _).
    erewrite bind_returned; [|exact Hcount].
    destruct (closeDatabase_any w5) as (w6 & Hclose & Ht6).
    unfold ret at 1. rewrite (try_catch_returned _ _ _ _ _ Hclose).
    eexists _, _, k. split; [reflexivity|].
    cbn [SeedScript.successCount SeedScript.errorCount fst snd].
    rewrite Ht6, Ht5, Ht4, Ht3, Ht2, Ht1, Ht0. simpl length in Hsum.
    repeat split; try lia.
Qed.

Lemma resetDatabase_calm d (t : Table) :
  SeedScript.resetDatabase (calm d t)
  = (SeedScript.Finished (), calm None {| rows := []; seq := seq t |}).
Proof. reflexivity. Qed.

(** X25.  However the engine behaves, a run of the reset script either
    finishes, and then the table has no row and its id counter is as
    before, or exits with code 1, and then the table is untouched; when
    it exits after a successful [initializeDatabase], the connection is
    left open.  With a quiet engine it finishes and closes the
    connection. *)
Theorem reset_script_ending (w : World) :
  (∀ end_ w', SeedScript.resetDatabase w = (end_, w') →
     match end_ with
     | SeedScript.Finished _ =>
         rows (table w') = [] ∧ seq (table w') = seq (table w)
     | SeedScript.Exit code =>
         code = 1 ∧ table w' = table w ∧
         ((initializeDatabase w).1 = Returned Connection → database w' = Some Connection)
     | SeedScript.Rejected _ => False
     end) ∧
  (quiet w →
     SeedScript.resetDatabase w
     = (SeedScript.Finished (),
        {| database := None; table := {| rows := []; seq := seq (table w) |};
           faults := [] |})).
Proof.
  split.
  - intros end_ w'. unfold SeedScript.resetDatabase.
    destruct (initializeDatabase_any w) as [(w0 & H & Hd & Ht) | (w0 & H & Ht)].
    + erewrite bind_returned; [|exact H]. rewrite H. cbn [fst].
      unfold clearAllTasks, try_catch, bind, this_database, throw, ret,
        runAsync_deleteAll.
      rewrite Hd. engine_cases.
      * intros [= <- <-]. simpl. by rewrite Hd.
      * destruct (closeDatabase_any
          {| database := database w0;
             table := {| rows := []; seq := seq (table w0) |};
             faults := tail (faults w0) |}) as (w1 & -> & Ht1).
        intros [= <- <-]. rewrite Ht1. simpl. by rewrite Ht.
    + unfold bind at 1. rewrite H. intros [= <- <-]. simpl.
      split; [done|]. split; [done|]. by intros [=].
  - intros Hq. rewrite (quiet_calm w Hq) at 1. apply resetDatabase_calm.
Qed.

Lemma seed_script_ending_witness :
  SeedScript.seedDatabase
    {| database := None; table := emptyTable; faults := [true] |}
  = (SeedScript.Exit 1, {| database := None; table := emptyTable; faults := [] |}).
Proof.
  destruct (seed_script_ending
              {| database := None; table := emptyTable; faults := [true] |})
    as [Hexit _].
  by destruct (Hexit FailedToInitialize
                 {| database := None; table := emptyTable; faults := [] |} eq_refl).
Defined.

Lemma reset_script_ending_witness :
  ∃ w',
    SeedScript.resetDatabase
      {| database := None; table := {| rows := TasksScreen.initialTasks; seq := 4 |};
         faults := [false; false; true] |}
    = (SeedScript.Exit 1, w') ∧
    rows (table w') = TasksScreen.initialTasks ∧ database w' = Some Connection.
Proof.
  destruct (reset_script_ending
      {| database := None; table := {| rows := TasksScreen.initialTasks; seq := 4 |};
         faults := [false; false; true] |}) as [Hend _].
  eexists. split; [reflexivity|].
  destruct (Hend _ _ eq_refl) as (_ & -> & Hopen). split; [done|].
  by apply Hopen.
Defined.

End AdapterFurther.
